(** * express-utils: request validation, multipart extraction and SSE framing

    A shallow embedding of the TypeScript sources of [@xcvzmoon/express-utils]:
    - [readValidatedQuery] / [readValidatedParams] (Zod adapters),
    - [getMultipartFormData] / [readMultipartFormData] (busboy adapters),
    - [createServerSentEvent] (SSE channel). *)

From Stdlib Require Import String Ascii List Lia NArith Arith.
From Stdlib.Init Require Import Byte.
From stdpp Require Import base list.
Import ListNotations.

(* ------------------------------------------------------------------ *)
(** ** JavaScript strings and values *)

(** A JavaScript string is a sequence of UTF-16 code units. *)
Definition jsstr := list N.

(** Literal helper: an ASCII Rocq string as its UTF-16 code units. *)
Definition lit (s : string) : jsstr := map N_of_ascii (list_ascii_of_string s).

Definition NL : N := 10%N.

(** [s.startsWith(p)] *)
Fixpoint startsWith (s p : jsstr) : bool :=
  match p, s with
  | [], _ => true
  | c :: p', d :: s' => N.eqb c d && startsWith s' p'
  | _ :: _, [] => false
  end.

(** [s.charCodeAt(0)]: [None] stands for [NaN] (empty string). *)
Definition charCodeAt0 (s : jsstr) : option N :=
  match s with [] => None | c :: _ => Some c end.

(** JavaScript truthiness of a string: only [""] is falsy. *)
Definition truthy_str (s : jsstr) : bool :=
  match s with [] => false | _ => true end.

(** [s.split('\n')]: always at least one piece. *)
Fixpoint split_nl (s : jsstr) : list jsstr :=
  match s with
  | [] => [[]]
  | c :: s' =>
      let r := split_nl s' in
      if N.eqb c NL then [] :: r
      else match r with
           | x :: xs => (c :: x) :: xs
           | [] => [[c]]
           end
  end.

(** [arr.join(sep)] *)
Fixpoint join (sep : jsstr) (l : list jsstr) : jsstr :=
  match l with
  | [] => []
  | [x] => x
  | x :: xs => x ++ sep ++ join sep xs
  end.

(* ------------------------------------------------------------------ *)
(** ** Zod adapters: [readValidatedParams], [readValidatedQuery]
    (src/src/index.ts, src/src/read-validated-query.ts) *)

Module Validate.

(** The JavaScript values the adapter can hand around as an error cause. *)
Inductive issue := mkIssue (path : list jsstr) (code : jsstr) (message : jsstr).

Inductive cause_val :=
  | CauseUndefined
  | CauseIssues (l : list issue)
  | CauseOther (n : N).

(** A [ZodError]: its [message], its [issues], and its own [cause]
    property (whatever the schema library put there). *)
Record ZodError := mkZodError {
  ze_message : jsstr;
  ze_issues : list issue;
  ze_cause : cause_val
}.

(** [new Error(message, { cause })] *)
Record ErrorObj := mkError { err_message : jsstr; err_cause : cause_val }.

Section Adapter.
Context {V T : Type}.

(** [z.ZodSafeParseResult<T>] *)
Inductive SafeParseResult :=
  | Success (data : T)
  | Failure (error : ZodError).

(** What the overloaded function returns: [z.infer<T>] or the result. *)
Inductive ReturnVal :=
  | RetData (v : T)
  | RetResult (r : SafeParseResult).

(** Completion of a call: a normal return, or a thrown [Error]. *)
Inductive Completion :=
  | Normal (v : ReturnVal)
  | Throw (e : ErrorObj).

(** The schema, as far as the adapter uses it: [schema.safeParse]. *)
Definition Schema := V -> SafeParseResult.

(** [options?: { safe?: boolean }] *)
Record Options := mkOptions { safe : option bool }.

Record Request := mkRequest { params : V; query : V }.

(** [options?.safe] evaluated for truthiness. *)
Definition safe_flag (options : option Options) : bool :=
  match options with
  | Some o => match safe o with Some true => true | _ => false end
  | None => false
  end.

Definition readValidatedParams (req : Request) (schema : Schema)
    (options : option Options) : Completion :=
  let result := schema (params req) in
  if safe_flag options then Normal (RetResult result)
  else match result with
       | Failure error =>
           let message := ze_message error in
           let cause := ze_cause error in
           Throw (mkError message cause)
       | Success data => Normal (RetData data)
       end.

Definition readValidatedQuery (req : Request) (schema : Schema)
    (options : option Options) : Completion :=
  let result := schema (query req) in
  if safe_flag options then Normal (RetResult result)
  else match result with
       | Failure error =>
           let message := ze_message error in
           let cause := ze_cause error in
           Throw (mkError message cause)
       | Success data => Normal (RetData data)
       end.

End Adapter.
Arguments SafeParseResult : clear implicits.
Arguments Request : clear implicits.

End Validate.

(* ------------------------------------------------------------------ *)
(** ** Server-Sent Events: [createServerSentEvent] (src/unnamed/part_002) *)

Module SSE.

(** The operations the channel performs on the Express response, in the
    order it performs them. *)
Inductive Op :=
  | SetHeader (name value : jsstr)
  | FlushHeaders
  | Write (chunk encoding : jsstr)
  | Flush
  | End.

(** The response transport: the operations performed on it so far,
    whether it exposes the optional [flushHeaders] and [flush] methods,
    and its own [closed] flag. *)
Record Response := mkResponse {
  res_log : list Op;
  res_has_flushHeaders : bool;
  res_has_flush : bool;
  res_closed : bool
}.

Definition perform (res : Response) (op : Op) : Response :=
  mkResponse (res_log res ++ [op]) (res_has_flushHeaders res)
             (res_has_flush res) (res_closed res).

Definition setHeader (name value : jsstr) (res : Response) : Response :=
  perform res (SetHeader name value).

(** [res.write.call(res, chunk, 'utf8')] *)
Definition write (chunk : jsstr) (res : Response) : Response :=
  perform res (Write chunk (lit "utf8")).

(** [(res as ExtendedResponse).flushHeaders?.()] *)
Definition flushHeaders_opt (res : Response) : Response :=
  if res_has_flushHeaders res then perform res FlushHeaders else res.

(** [(res as ExtendedResponse).flush?.()] *)
Definition flush_opt (res : Response) : Response :=
  if res_has_flush res then perform res Flush else res.

(** [res.end()] *)
Definition end_ (res : Response) : Response := perform res End.

(** The object returned to the caller.  The methods act on the response
    they closed over; [closed] is a property read, which may in general
    depend on the current state of the response. *)
Record Channel := mkChannel {
  push : jsstr -> Response -> Response;
  pushComment : jsstr -> Response -> Response;
  close : Response -> Response;
  closed : Response -> bool
}.

Definition push_impl (chunk : jsstr) (res : Response) : Response :=
  flush_opt (write chunk res).

(** The comment text built by [pushComment]. *)
Definition comment_of (chunk : jsstr) : jsstr :=
  (if truthy_str chunk
   then join [NL] (map (fun line => lit ": " ++ line) (split_nl chunk))
   else lit ":") ++ [NL; NL].

Definition pushComment_impl (chunk : jsstr) (res : Response) : Response :=
  let comment := comment_of chunk in
  flush_opt (write comment res).

Definition createServerSentEvent (res : Response) : Channel * Response :=
  let res := setHeader (lit "Content-Type") (lit "text/event-stream") res in
  let res := setHeader (lit "Cache-Control") (lit "no-cache") res in
  let res := setHeader (lit "Connection") (lit "keep-alive") res in
  let res := setHeader (lit "X-Accel-Buffering") (lit "no") res in
  let res := flushHeaders_opt res in
  (* [closed: res.closed] is evaluated once, in the object literal *)
  let snapshot := res_closed res in
  (mkChannel push_impl pushComment_impl end_ (fun _ => snapshot), res).

(** What can happen after the channel is open: the caller uses one of its
    methods, or the transport's own [closed] flag changes. *)
Inductive Action :=
  | APush (chunk : jsstr)
  | APushComment (chunk : jsstr)
  | AClose
  | ATransportClosed (b : bool).

Definition act (ch : Channel) (res : Response) (a : Action) : Response :=
  match a with
  | APush c => push ch c res
  | APushComment c => pushComment ch c res
  | AClose => close ch res
  | ATransportClosed b =>
      mkResponse (res_log res) (res_has_flushHeaders res) (res_has_flush res) b
  end.

Definition run_actions (ch : Channel) (res : Response) (acts : list Action)
  : Response := fold_left (act ch) acts res.

(** Specification-side reading of the comment framing rule: the empty text
    gives [":\n\n"]; otherwise every line of the text is prefixed with
    [": "], lines stay separated by newlines, and ["\n\n"] follows. *)
Definition comment_escape (text : jsstr) : jsstr :=
  flat_map (fun c => if N.eqb c NL then [NL] ++ lit ": " else [c]) text.

End SSE.

(* ------------------------------------------------------------------ *)
(** ** Multipart extraction: [getMultipartFormData]
    (src/src/get-multipart-form-data.ts, @fastify/busboy) and
    [readMultipartFormData] (src/src/read-validated-query.ts, busboy) *)

Module Multipart.

(** Values that reach a [reject]: an [Error] instance, or anything else. *)
Inductive jsval :=
  | JsError (message : jsstr)
  | JsNonError (n : N).

(** The state of a JavaScript promise. *)
Inductive pstate (A : Type) :=
  | Pending
  | Fulfilled (v : A)
  | Rejected (e : jsval).
Arguments Pending {A}.
Arguments Fulfilled {A} v.
Arguments Rejected {A} e.

(** [resolve] / [reject]: a promise settles at most once. *)
Definition settle_resolve {A} (p : pstate A) (v : A) : pstate A :=
  match p with Pending => Fulfilled v | _ => p end.
Definition settle_reject {A} (p : pstate A) (e : jsval) : pstate A :=
  match p with Pending => Rejected e | _ => p end.

(** [MultipartFormData] *)
Record MultipartFormData := mkMFD {
  name : jsstr;
  filename : jsstr;
  mimeType : jsstr;
  buffer : list byte
}.

(** One ['file'] listener invocation: the closure variables it captures
    ([fieldname], [filename], [mimeType]), its [chunks] array, and the
    promise it pushes onto [promises]. *)
Record FileStream := mkFS {
  fs_name : jsstr;
  fs_filename : jsstr;
  fs_mimeType : jsstr;
  fs_chunks : list (list byte);
  fs_promise : pstate MultipartFormData
}.

(** The events the decoder emits, in the order it emits them.  File
    streams are numbered by the order of their ['file'] events; [F] is the
    payload of a ['file'] event, which differs between the two decoders. *)
Inductive event (F : Type) :=
  | EvFile (p : F)                            (* busboy 'file' *)
  | EvField                                   (* busboy 'field': no listener *)
  | EvData (k : nat) (chunk : list byte)      (* stream k 'data' *)
  | EvEnd (k : nat)                           (* stream k 'end' *)
  | EvStreamError (k : nat) (e : jsval)       (* stream k 'error' *)
  | EvFinish                                  (* busboy 'finish' *)
  | EvError (e : jsval).                      (* busboy 'error' *)
Arguments EvFile {F} p.
Arguments EvField {F}.
Arguments EvData {F} k chunk.
Arguments EvEnd {F} k.
Arguments EvStreamError {F} k e.
Arguments EvFinish {F}.
Arguments EvError {F} e.

(** The state of one call after [req.pipe(busboy)]: the [promises] array
    (with the per-file closures), the [Promise.all] calls made by the
    ['finish'] listener (each over the first [n] promises, the array's
    length at the call), and the promise the function returns. *)
Record EngineState := mkES {
  promises : list FileStream;
  all_calls : list nat;
  outer : pstate (option (list MultipartFormData))
}.

Definition init_state : EngineState := mkES [] [] Pending.

(** [stream.on('data', chunk => chunks.push(chunk))] *)
Definition stream_data (chunk : list byte) (s : FileStream) : FileStream :=
  mkFS (fs_name s) (fs_filename s) (fs_mimeType s) (fs_chunks s ++ [chunk])
       (fs_promise s).

(** [stream.on('end', ...)]: [resolve({ name, filename, mimeType,
    buffer: Buffer.concat(chunks) })] *)
Definition stream_end (s : FileStream) : FileStream :=
  let buffer := concat (fs_chunks s) in
  mkFS (fs_name s) (fs_filename s) (fs_mimeType s) (fs_chunks s)
       (settle_resolve (fs_promise s)
          (mkMFD (fs_name s) (fs_filename s) (fs_mimeType s) buffer)).

(** [stream.on('error', reject)] *)
Definition stream_error (e : jsval) (s : FileStream) : FileStream :=
  mkFS (fs_name s) (fs_filename s) (fs_mimeType s) (fs_chunks s)
       (settle_reject (fs_promise s) e).

(** The settlement of [Promise.all] over a list of promises. *)
Inductive all_result :=
  | AllPending
  | AllFulfilled (vs : list MultipartFormData)
  | AllRejected (e : jsval).

Fixpoint all_status (ps : list FileStream) : all_result :=
  match ps with
  | [] => AllFulfilled []
  | s :: ps' =>
      match fs_promise s with
      | Rejected e => AllRejected e
      | Fulfilled v =>
          match all_status ps' with
          | AllFulfilled vs => AllFulfilled (v :: vs)
          | r => r
          end
      | Pending =>
          match all_status ps' with
          | AllRejected e => AllRejected e
          | _ => AllPending
          end
      end
  end.

(** The [.catch] handler: keep an [Error], replace anything else. *)
Definition catch_error (error : jsval) : jsval :=
  match error with
  | JsError _ => error
  | JsNonError _ => JsError (lit "An error occurred while parsing multipart form data")
  end.

(** Reactions of the [Promise.all(promises).then(resolve).catch(...)]
    chains: each call settles the returned promise once its own [n]
    promises allow it.  (The microtask delay of the reactions is not
    modelled: a chain reacts right after the event that settles it.) *)
Definition chain (ps : list FileStream)
    (o : pstate (option (list MultipartFormData))) (n : nat)
  : pstate (option (list MultipartFormData)) :=
  match all_status (take n ps) with
  | AllFulfilled files => settle_resolve o (Some files)
  | AllRejected error => settle_reject o (catch_error error)
  | AllPending => o
  end.

Definition react (st : EngineState) : EngineState :=
  mkES (promises st) (all_calls st)
    (fold_left (chain (promises st)) (all_calls st) (outer st)).

Section Engine.
Context {F : Type}.

(** The ['file'] listener's reading of its arguments. *)
Variable on_file : F -> FileStream.

Definition step (st : EngineState) (ev : event F) : EngineState :=
  match ev with
  | EvFile p => mkES (promises st ++ [on_file p]) (all_calls st) (outer st)
  | EvField => st
  | EvData k chunk =>
      mkES (alter (stream_data chunk) k (promises st)) (all_calls st) (outer st)
  | EvEnd k =>
      react (mkES (alter stream_end k (promises st)) (all_calls st) (outer st))
  | EvStreamError k e =>
      react (mkES (alter (stream_error e) k (promises st)) (all_calls st)
               (outer st))
  | EvFinish =>
      react (mkES (promises st) (all_calls st ++ [length (promises st)])
               (outer st))
  | EvError e => mkES (promises st) (all_calls st) (settle_reject (outer st) e)
  end.

Definition run (tr : list (event F)) : EngineState :=
  fold_left step tr init_state.

End Engine.

(** The request, as the extractors see it: its [content-type] header,
    what the decoder library's constructor does with the request headers
    ([decoder_init]: [None] when it builds a decoder, [Some e] when it
    throws [e], e.g. for a header without a boundary; the two libraries
    need not refuse the same headers), and the events the decoder emits
    once the body is piped into it. *)
Record Request (F : Type) := mkRequest {
  content_type : option jsstr;
  decoder_init : option jsval;
  body : list (event F)
}.
Arguments mkRequest {F}.
Arguments content_type {F}.
Arguments decoder_init {F}.
Arguments body {F}.

Definition multipart_prefix : jsstr := lit "multipart/form-data".

(** [getContentType] (identical in both source files) *)
Definition getContentType {F} (req : Request F) : option jsstr :=
  match content_type req with
  | None => None
  | Some contentType =>
      if negb (truthy_str contentType)
         || negb (match charCodeAt0 contentType with
                  | Some c => N.eqb c 109
                  | None => false
                  end)
         || negb (startsWith contentType multipart_prefix)
      then None else Some contentType
  end.

(** The outcome of a call: whether the body was piped into the decoder,
    and the state of the promise the [async] function returned. *)
Definition Outcome := (bool * pstate (option (list MultipartFormData)))%type.

(** @fastify/busboy: [(fieldname, stream, filename, transferEncoding, mimeType)] *)
Record FastifyFile := mkFastifyFile {
  ff_fieldname : jsstr;
  ff_filename : jsstr;
  ff_transferEncoding : jsstr;
  ff_mimeType : jsstr
}.

Definition fastify_on_file (p : FastifyFile) : FileStream :=
  mkFS (ff_fieldname p) (ff_filename p) (ff_mimeType p) [] Pending.

(** [new Busboy(...)] runs before [req.pipe(busboy)]: a constructor that
    throws makes the [async] function reject with the thrown value, and
    the body is never piped. *)
Definition getMultipartFormData (req : Request FastifyFile) : Outcome :=
  match getContentType req with
  | None => (false, Fulfilled None)
  | Some _ =>
      match decoder_init req with
      | Some e => (false, Rejected e)
      | None => (true, outer (run fastify_on_file (body req)))
      end
  end.

(** busboy: [(name, file, info)] with [info = { filename, encoding, mimeType }] *)
Record FileInfo := mkFileInfo {
  info_filename : jsstr;
  info_encoding : jsstr;
  info_mimeType : jsstr
}.

Record BusboyFile := mkBusboyFile { bb_name : jsstr; bb_info : FileInfo }.

Definition busboy_on_file (p : BusboyFile) : FileStream :=
  mkFS (bb_name p) (info_filename (bb_info p)) (info_mimeType (bb_info p))
       [] Pending.

(** [busboy({ headers: req.headers })] likewise runs before [req.pipe(bb)]. *)
Definition readMultipartFormData (req : Request BusboyFile) : Outcome :=
  match getContentType req with
  | None => (false, Fulfilled None)
  | Some _ =>
      match decoder_init req with
      | Some e => (false, Rejected e)
      | None => (true, outer (run busboy_on_file (body req)))
      end
  end.

(** *** The decoder's event protocol

    What every well-behaved decoder run looks like: a stream's events come
    after its ['file'] event and stop once the stream has ended or failed
    (each stream settles once); the decoder reports ['finish'] or ['error']
    at most once, and no new file part after that. *)
Section Protocol.
Context {F : Type}.

Definition is_terminal (ev : event F) : bool :=
  match ev with EvFinish | EvError _ => true | _ => false end.

Definition is_finish (ev : event F) : bool :=
  match ev with EvFinish => true | _ => false end.

Definition settles (k : nat) (ev : event F) : bool :=
  match ev with
  | EvEnd j | EvStreamError j _ => Nat.eqb j k
  | _ => false
  end.

(** The file parts declared so far, in body order. *)
Fixpoint declared_files (tr : list (event F)) : list F :=
  match tr with
  | [] => []
  | EvFile p :: tr' => p :: declared_files tr'
  | _ :: tr' => declared_files tr'
  end.

(** The chunks received for stream [k], in arrival order. *)
Fixpoint received (k : nat) (tr : list (event F)) : list (list byte) :=
  match tr with
  | [] => []
  | EvData j c :: tr' => if Nat.eqb j k then c :: received k tr' else received k tr'
  | _ :: tr' => received k tr'
  end.

Definition event_ok (pre : list (event F)) (ev : event F) : bool :=
  match ev with
  | EvFile _ | EvFinish | EvError _ => negb (existsb is_terminal pre)
  | EvField => true
  | EvData k _ | EvEnd k | EvStreamError k _ =>
      Nat.ltb k (length (declared_files pre)) && negb (existsb (settles k) pre)
  end.

Fixpoint protocol_from (pre tr : list (event F)) : bool :=
  match tr with
  | [] => true
  | ev :: tr' => event_ok pre ev && protocol_from (pre ++ [ev]) tr'
  end.

Definition decoder_protocol (tr : list (event F)) : bool := protocol_from [] tr.

(** The decoder reported the end of the body, or a malformed body. *)
Definition terminated (tr : list (event F)) : bool := existsb is_terminal tr.

(** A failure reported before the decoder's first ['finish']: the
    decoder's ['error'] (a malformed or truncated body), or the ['error'] of
    a file stream that has begun and has not yet ended or failed, after
    which the decoder still reports ['finish'] or ['error'].  Nothing is
    assumed about the rest of the run. *)
Definition fails_before_finish (tr : list (event F)) : Prop :=
  (exists pre post e, tr = pre ++ EvError e :: post /\ ~ In EvFinish pre) \/
  (exists pre post k e,
     tr = pre ++ EvStreamError k e :: post /\ ~ In EvFinish pre /\
     k < length (declared_files pre) /\ existsb (settles k) pre = false /\
     terminated post = true).

(** Specification side: one record per declared file part, in body
    order, carrying that part's bytes as received. *)
Definition expected_files (on_file : F -> FileStream) (tr : list (event F))
  : list MultipartFormData :=
  imap (fun k p =>
          let s := on_file p in
          mkMFD (fs_name s) (fs_filename s) (fs_mimeType s)
                (concat (received k tr)))
       (declared_files tr).

End Protocol.

(** Specification side: the header is present and begins with the literal
    prefix [multipart/form-data]. *)
Definition applicable (ct : option jsstr) : bool :=
  match ct with Some c => startsWith c multipart_prefix | None => false end.

(** Two decoders deliver the same parts: the same events, where
    corresponding ['file'] events carry the same field name, filename and
    MIME type. *)
Definition same_file (p : FastifyFile) (q : BusboyFile) : Prop :=
  ff_fieldname p = bb_name q /\ ff_filename p = info_filename (bb_info q)
  /\ ff_mimeType p = info_mimeType (bb_info q).

Definition same_event (a : event FastifyFile) (b : event BusboyFile) : Prop :=
  match a, b with
  | EvFile p, EvFile q => same_file p q
  | EvField, EvField => True
  | EvData k c, EvData k' c' => k = k' /\ c = c'
  | EvEnd k, EvEnd k' => k = k'
  | EvStreamError k e, EvStreamError k' e' => k = k' /\ e = e'
  | EvFinish, EvFinish => True
  | EvError e, EvError e' => e = e'
  | _, _ => False
  end.

End Multipart.

(* ================================================================== *)
(** * Sample inputs *)

Module ValidateSamples.
Import Validate.

(** The options object [{ safe: true }]. *)
Definition safe_true : option Options := Some (mkOptions (Some true)).

(** A concrete rejecting schema: one issue, and (as Zod leaves it) no
    [cause] property of its own on the error. *)
Definition issue0 : issue := mkIssue [lit "id"] (lit "invalid_type") (lit "Required").
Definition zerr0 : ZodError := mkZodError (lit "Required") [issue0] CauseUndefined.
Definition schema0 : @Schema unit unit := fun _ => Failure zerr0.
Definition req0 : Request unit := mkRequest tt tt.

(** A concrete accepting schema. *)
Definition schema_ok : @Schema unit nat := fun _ => Success 42.

End ValidateSamples.

Module MultipartSamples.
Import Multipart.

Definition ct_multipart : option jsstr :=
  Some (lit "multipart/form-data; boundary=----b").

Definition ff_avatar : FastifyFile :=
  mkFastifyFile (lit "avatar") (lit "a.bin") (lit "7bit") (lit "application/octet-stream").
Definition ff_doc : FastifyFile :=
  mkFastifyFile (lit "doc") (lit "b.txt") (lit "7bit") (lit "text/plain").
Definition bb_avatar : BusboyFile :=
  mkBusboyFile (lit "avatar")
    (mkFileInfo (lit "a.bin") (lit "7bit") (lit "application/octet-stream")).
Definition bb_doc : BusboyFile :=
  mkBusboyFile (lit "doc") (mkFileInfo (lit "b.txt") (lit "7bit") (lit "text/plain")).

(** A body with one non-file field and two file parts; the first part's
    bytes [00 ff 0a 0d] arrive in two chunks, interleaved with the second
    part, and the decoder finishes before the second stream ends. *)
Definition body_ok {F} (a b : F) : list (event F) :=
  [EvField; EvFile a; EvData 0 [x00; xff]; EvFile b; EvData 0 [x0a; x0d];
   EvData 1 [x68; x69]; EvEnd 0; EvFinish; EvEnd 1].

Definition files_ok : list MultipartFormData :=
  [mkMFD (lit "avatar") (lit "a.bin") (lit "application/octet-stream")
         [x00; xff; x0a; x0d];
   mkMFD (lit "doc") (lit "b.txt") (lit "text/plain") [x68; x69]].

(** A file stream fails (with a non-[Error] value), then the decoder finishes. *)
Definition body_stream_fail {F} (a : F) : list (event F) :=
  [EvFile a; EvData 0 [x00]; EvStreamError 0 (JsNonError 0); EvFinish].

(** The decoder reports a malformed body. *)
Definition body_decoder_fail {F} (a : F) : list (event F) :=
  [EvFile a; EvData 0 [x00]; EvError (JsError (lit "Malformed part header"))].

(** Only non-file fields, then ['finish']. *)
Definition body_fields_only {F} : list (event F) := [EvField; EvField; EvFinish].

Definition req_fields_ff : Request FastifyFile := mkRequest ct_multipart None body_fields_only.
Definition req_fields_bb : Request BusboyFile := mkRequest ct_multipart None body_fields_only.

Definition req_ok_ff : Request FastifyFile := mkRequest ct_multipart None (body_ok ff_avatar ff_doc).
Definition req_ok_bb : Request BusboyFile := mkRequest ct_multipart None (body_ok bb_avatar bb_doc).
Definition req_sfail_ff : Request FastifyFile := mkRequest ct_multipart None (body_stream_fail ff_avatar).
Definition req_sfail_bb : Request BusboyFile := mkRequest ct_multipart None (body_stream_fail bb_avatar).
Definition req_dfail_ff : Request FastifyFile := mkRequest ct_multipart None (body_decoder_fail ff_avatar).
Definition req_dfail_bb : Request BusboyFile := mkRequest ct_multipart None (body_decoder_fail bb_avatar).

End MultipartSamples.

(* ================================================================== *)
(** * Proofs *)

(* ------------------------------------------------------------------ *)
(** ** Zod adapters *)

Module ValidateProofs.
Import Validate ValidateSamples.

Lemma safe_flag_true (options : option Options) :
  safe_flag options = true <-> options = safe_true.
Proof.
  unfold safe_flag, safe_true. split.
  - destruct options as [[[[]|]]|]; simpl; congruence.
  - intros ->. reflexivity.
Qed.

(** C1 (divergence): in unsafe mode the thrown error's [cause] is the
    Zod error's own [cause] property ([result.error.cause]), not its issue
    list ([result.error.issues]): with a failure carrying one issue and no
    [cause] of its own, as Zod builds it, the adapter throws an error whose
    cause is [undefined], although its documentation says the error's
    cause reflects the Zod error. *)
Lemma C1_thrown_cause_not_issue_list :
  readValidatedQuery req0 schema0 None <>
    Throw (mkError (ze_message zerr0) (CauseIssues (ze_issues zerr0))) /\
  readValidatedParams req0 schema0 None <>
    Throw (mkError (ze_message zerr0) (CauseIssues (ze_issues zerr0))).
Proof. split; vm_compute; congruence. Qed.

(** C1 (what the code does): when the schema rejects the input, unsafe
    mode (options absent, or [safe] not [true]) throws an error whose
    message is the failure's message and whose cause is the failure's own
    [cause] property, whatever its issue list; safe mode returns the
    failure outcome, with its issue list, and does not throw. *)
Theorem C1_reject_throws_or_returns_failure {V T : Type}
    (schema : @Schema V T) (req : Request V) (error : ZodError) :
  (schema (query req) = Failure error ->
     (forall options, options <> safe_true ->
        readValidatedQuery req schema options
        = Throw (mkError (ze_message error) (ze_cause error))) /\
     readValidatedQuery req schema safe_true = Normal (RetResult (Failure error))) /\
  (schema (params req) = Failure error ->
     (forall options, options <> safe_true ->
        readValidatedParams req schema options
        = Throw (mkError (ze_message error) (ze_cause error))) /\
     readValidatedParams req schema safe_true = Normal (RetResult (Failure error))).
Proof.
  split; intros Hr; split;
    try (intros options Hopt;
         assert (Hs : safe_flag options = false)
           by (destruct (safe_flag options) eqn:E; [|reflexivity];
               apply safe_flag_true in E; contradiction));
    unfold readValidatedQuery, readValidatedParams;
    rewrite ?Hs, ?Hr; reflexivity.
Qed.

Lemma C1_reject_throws_or_returns_failure_witness :
  schema0 (query req0) = Failure zerr0 /\
  readValidatedQuery req0 schema0 None
    = Throw (mkError (ze_message zerr0) (ze_cause zerr0)).
Proof.
  split; [reflexivity|].
  apply (proj1 (proj1 (C1_reject_throws_or_returns_failure schema0 req0 zerr0) eq_refl)).
  discriminate.
Defined.

(** C2: when the schema accepts the input, unsafe mode returns exactly the
    parsed value and safe mode returns the success outcome carrying that
    same value, for both the query and the params adapter. *)
Theorem C2_accept_returns_parsed_value {V T : Type}
    (schema : @Schema V T) (req : Request V) (v : T) :
  (schema (query req) = Success v ->
     (forall options, options <> safe_true ->
        readValidatedQuery req schema options = Normal (RetData v)) /\
     readValidatedQuery req schema safe_true = Normal (RetResult (Success v))) /\
  (schema (params req) = Success v ->
     (forall options, options <> safe_true ->
        readValidatedParams req schema options = Normal (RetData v)) /\
     readValidatedParams req schema safe_true = Normal (RetResult (Success v))).
Proof.
  split; intros Hr; split;
    try (intros options Hopt;
         assert (Hs : safe_flag options = false)
           by (destruct (safe_flag options) eqn:E; [|reflexivity];
               apply safe_flag_true in E; contradiction));
    unfold readValidatedQuery, readValidatedParams;
    rewrite ?Hs, ?Hr; reflexivity.
Qed.

Lemma C2_accept_returns_parsed_value_witness :
  schema_ok (query req0) = Success 42 /\
  readValidatedQuery req0 schema_ok None = Normal (RetData 42).
Proof.
  split; [reflexivity|].
  apply (proj1 (proj1 (C2_accept_returns_parsed_value schema_ok req0 42) eq_refl)).
  discriminate.
Defined.

End ValidateProofs.

(* ------------------------------------------------------------------ *)
(** ** Server-Sent Events *)

Module SSEProofs.
Import SSE.

Lemma split_nl_nonempty (s : jsstr) : exists x xs, split_nl s = x :: xs.
Proof.
  destruct s as [|c s]; simpl; [eauto|].
  destruct (N.eqb c NL); [eauto|].
  destruct (split_nl s); eauto.
Qed.

Definition join_tail (sep : jsstr) (l : list jsstr) : jsstr :=
  match l with [] => [] | _ => sep ++ join sep l end.

Lemma join_cons (sep x : jsstr) (l : list jsstr) :
  join sep (x :: l) = x ++ join_tail sep l.
Proof. destruct l; simpl; [rewrite app_nil_r|]; reflexivity. Qed.

(** Splitting on newlines, prefixing every line and joining back with
    newlines is the same as prefixing the text and re-prefixing after
    every newline. *)
Lemma join_split_prefix (p s : jsstr) :
  join [NL] (map (fun line => p ++ line) (split_nl s))
  = p ++ flat_map (fun c => if N.eqb c NL then [NL] ++ p else [c]) s.
Proof.
  induction s as [|c s IH].
  - simpl. rewrite !app_nil_r. reflexivity.
  - cbn [split_nl flat_map]. destruct (split_nl_nonempty s) as [x [xs Hs]].
    rewrite Hs in IH |- *. destruct (N.eqb c NL) eqn:Ec.
    + cbn [map] in IH |- *. rewrite join_cons. cbn [join_tail].
      rewrite IH, app_nil_r. reflexivity.
    + cbn [map] in IH |- *. rewrite join_cons in IH |- *.
      rewrite <- app_assoc in IH. apply app_inv_head in IH.
      rewrite <- app_assoc. cbn [app]. rewrite IH. reflexivity.
Qed.

Lemma comment_of_spec (text : jsstr) :
  comment_of text =
  (if truthy_str text then lit ": " ++ comment_escape text else lit ":")
  ++ [NL; NL].
Proof.
  unfold comment_of, comment_escape.
  destruct (truthy_str text); [|reflexivity].
  rewrite join_split_prefix. reflexivity.
Qed.

(** C7: [pushComment] performs exactly one write, of [":\n\n"] for the
    empty text and otherwise of the lines of the text, each prefixed with
    [": "], separated by newlines and followed by ["\n\n"]; the
    documented examples hold. *)
Theorem C7_pushComment_framing (res0 res : Response) (text : jsstr) :
  let ch := fst (createServerSentEvent res0) in
  res_log (pushComment ch text res)
  = res_log res
    ++ [Write ((if truthy_str text
                then join [NL] (map (fun line => lit ": " ++ line) (split_nl text))
                else lit ":") ++ [NL; NL]) (lit "utf8")]
    ++ (if res_has_flush res then [Flush] else []) /\
  comment_of text
  = (if truthy_str text then lit ": " ++ comment_escape text else lit ":")
    ++ [NL; NL] /\
  comment_of [] = lit ":" ++ [NL; NL] /\
  comment_of (lit "heartbeat") = lit ": heartbeat" ++ [NL; NL] /\
  comment_of (lit "a" ++ [NL] ++ lit "b")
  = lit ": a" ++ [NL] ++ lit ": b" ++ [NL; NL].
Proof.
  simpl. split; [|split; [apply comment_of_spec|]].
  - unfold pushComment_impl, flush_opt, write, perform. simpl.
    destruct (res_has_flush res); simpl;
      rewrite ?app_nil_r, <- ?app_assoc; reflexivity.
  - repeat split; vm_compute; reflexivity.
Qed.

Definition header_ops : list Op :=
  [SetHeader (lit "Content-Type") (lit "text/event-stream");
   SetHeader (lit "Cache-Control") (lit "no-cache");
   SetHeader (lit "Connection") (lit "keep-alive");
   SetHeader (lit "X-Accel-Buffering") (lit "no")].

(** C8: opening a channel performs exactly the four header settings, once
    each and in this order, then [flushHeaders] exactly when the transport
    has it, and nothing else (in particular no write). *)
Theorem C8_open_sets_four_headers (res : Response) :
  res_log (snd (createServerSentEvent res))
  = res_log res ++ header_ops
    ++ (if res_has_flushHeaders res then [FlushHeaders] else []).
Proof.
  unfold createServerSentEvent, flushHeaders_opt, setHeader, perform. simpl.
  destruct (res_has_flushHeaders res); simpl; rewrite <- !app_assoc; reflexivity.
Qed.

(** C9: the channel's [closed] property is the transport's [closed] flag
    at opening time, whatever the caller or the transport does afterwards. *)
Theorem C9_closed_is_snapshot (res : Response) (acts : list Action) :
  let '(ch, res1) := createServerSentEvent res in
  closed ch (run_actions ch res1 acts) = res_closed res.
Proof.
  unfold createServerSentEvent, flushHeaders_opt. simpl.
  destruct (res_has_flushHeaders res); reflexivity.
Qed.

End SSEProofs.

(* ------------------------------------------------------------------ *)
(** ** Multipart extraction *)

Module MultipartProofs.
Import Multipart MultipartSamples.

(** *** The decoder protocol, event by event *)
Section ProtocolFacts.
Context {F : Type}.
Implicit Types (tr pre : list (event F)) (ev : event F).

Lemma protocol_from_snoc pre tr ev :
  protocol_from pre (tr ++ [ev]) = protocol_from pre tr && event_ok (pre ++ tr) ev.
Proof.
  revert pre. induction tr as [|a tr IH]; intros pre; simpl.
  - rewrite app_nil_r, andb_true_r. reflexivity.
  - rewrite IH, <- app_assoc, andb_assoc. reflexivity.
Qed.

Lemma protocol_snoc tr ev :
  decoder_protocol (tr ++ [ev]) = decoder_protocol tr && event_ok tr ev.
Proof. apply protocol_from_snoc. Qed.

Lemma protocol_snoc_inv tr ev :
  decoder_protocol (tr ++ [ev]) = true ->
  decoder_protocol tr = true /\ event_ok tr ev = true.
Proof. rewrite protocol_snoc. apply andb_prop. Qed.

Lemma protocol_app_l tr1 tr2 :
  decoder_protocol (tr1 ++ tr2) = true -> decoder_protocol tr1 = true.
Proof.
  induction tr2 as [|ev tr2 IH] using rev_ind; intros H.
  - rewrite app_nil_r in H. exact H.
  - rewrite app_assoc in H. apply protocol_snoc_inv in H. apply IH, H.
Qed.

Lemma declared_files_app tr1 tr2 :
  declared_files (tr1 ++ tr2) = declared_files tr1 ++ declared_files tr2.
Proof.
  induction tr1 as [|[] tr1 IH]; simpl; rewrite ?IH; reflexivity.
Qed.

Lemma received_app k tr1 tr2 :
  received k (tr1 ++ tr2) = received k tr1 ++ received k tr2.
Proof.
  induction tr1 as [|[] tr1 IH]; simpl; rewrite ?IH; try reflexivity.
  destruct (Nat.eqb k0 k); reflexivity.
Qed.

Lemma settles_target k ev tr :
  decoder_protocol tr = true -> In ev tr -> settles k ev = true ->
  k < length (declared_files tr).
Proof.
  induction tr as [|x tr IH] using rev_ind; intros Hp Hin Hs; [destruct Hin|].
  apply protocol_snoc_inv in Hp as [Hp Hok].
  rewrite declared_files_app, length_app.
  apply in_app_or in Hin as [Hin|[Heq|[]]].
  - specialize (IH Hp Hin Hs). lia.
  - subst x. destruct ev; simpl in Hs, Hok; try discriminate;
      apply Nat.eqb_eq in Hs; subst;
      apply andb_prop in Hok as [Hlt _]; apply Nat.ltb_lt in Hlt; lia.
Qed.

(** In a protocol run, a stream that failed never ended. *)
Lemma end_error_exclusive tr k e :
  decoder_protocol tr = true -> In (EvEnd k) tr -> In (EvStreamError k e) tr -> False.
Proof.
  induction tr as [|x tr IH] using rev_ind; intros Hp H1 H2; [destruct H1|].
  apply protocol_snoc_inv in Hp as [Hp Hok].
  apply in_app_or in H1 as [H1|[->|[]]]; apply in_app_or in H2 as [H2|[H2|[]]].
  - eauto.
  - subst x. simpl in Hok. apply andb_prop in Hok as [_ Hok].
    apply negb_true_iff in Hok. revert Hok. apply not_false_iff_true.
    apply existsb_exists. exists (EvEnd k). simpl. rewrite Nat.eqb_refl. auto.
  - simpl in Hok. apply andb_prop in Hok as [_ Hok].
    apply negb_true_iff in Hok. revert Hok. apply not_false_iff_true.
    apply existsb_exists. exists (EvStreamError k e). simpl. rewrite Nat.eqb_refl. auto.
  - discriminate.
Qed.

(** In a protocol run, the decoder does not both finish and fail. *)
Lemma finish_error_exclusive tr e :
  decoder_protocol tr = true -> In EvFinish tr -> In (EvError e) tr -> False.
Proof.
  induction tr as [|x tr IH] using rev_ind; intros Hp H1 H2; [destruct H1|].
  apply protocol_snoc_inv in Hp as [Hp Hok].
  apply in_app_or in H1 as [H1|[->|[]]]; apply in_app_or in H2 as [H2|[H2|[]]].
  - eauto.
  - subst x. simpl in Hok. apply negb_true_iff in Hok.
    revert Hok. apply not_false_iff_true.
    apply existsb_exists. exists EvFinish. auto.
  - simpl in Hok. apply negb_true_iff in Hok.
    revert Hok. apply not_false_iff_true.
    apply existsb_exists. exists (EvError e). auto.
  - discriminate.
Qed.

End ProtocolFacts.
(** *** [Promise.all] and its reactions *)

Lemma all_status_ext ps1 ps2 :
  map fs_promise ps1 = map fs_promise ps2 -> all_status ps1 = all_status ps2.
Proof.
  revert ps2. induction ps1 as [|s ps1 IH]; intros [|s' ps2] H;
    simpl in H; try discriminate; [reflexivity|].
  injection H as Hs Hps. simpl. rewrite Hs, (IH ps2 Hps). reflexivity.
Qed.

Lemma map_promise_alter f k ps :
  (forall s, fs_promise (f s) = fs_promise s) ->
  map fs_promise (alter f k ps) = map fs_promise ps.
Proof.
  intros Hf. revert k. induction ps as [|s ps IH]; intros [|k]; simpl;
    try reflexivity; [rewrite Hf; reflexivity|f_equal; apply IH].
Qed.

Lemma map_take {A B} (f : A -> B) n (l : list A) :
  map f (take n l) = take n (map f l).
Proof.
  revert n. induction l as [|x l IH]; intros [|n]; simpl; f_equal; auto.
Qed.

Lemma all_status_take_alter_data c k n ps :
  all_status (take n (alter (stream_data c) k ps)) = all_status (take n ps).
Proof.
  apply all_status_ext. rewrite !map_take.
  f_equal. apply map_promise_alter. reflexivity.
Qed.

Lemma all_status_take_alter_fulfilled f k n ps files :
  (forall s r, fs_promise s = Fulfilled r -> fs_promise (f s) = Fulfilled r) ->
  all_status (take n ps) = AllFulfilled files ->
  all_status (take n (alter f k ps)) = AllFulfilled files.
Proof.
  intros Hf. revert n k files. induction ps as [|s ps IH]; intros n k files H;
    [exact H|].
  destruct n as [|n]; [exact H|].
  simpl in H. destruct (fs_promise s) as [|v|e] eqn:Es;
    [destruct (all_status (take n ps)); discriminate| |discriminate].
  destruct (all_status (take n ps)) as [|vs|] eqn:Et; try discriminate.
  injection H as <-.
  destruct k as [|k]; simpl.
  - rewrite (Hf s v Es), Et. reflexivity.
  - change (list_alter f k ps) with (alter f k ps).
    rewrite Es, (IH n k vs Et). reflexivity.
Qed.

Lemma all_status_rejected ps s e :
  In s ps -> fs_promise s = Rejected e -> exists e', all_status ps = AllRejected e'.
Proof.
  induction ps as [|s' ps IH]; intros Hin Hs; [destruct Hin|].
  destruct Hin as [<-|Hin]; simpl.
  - rewrite Hs. eauto.
  - destruct (IH Hin Hs) as [e' He]. rewrite He.
    destruct (fs_promise s'); eauto.
Qed.

Lemma all_status_fulfilled ps files :
  all_status ps = AllFulfilled files ->
  Forall2 (fun s r => fs_promise s = Fulfilled r) ps files.
Proof.
  revert files. induction ps as [|s ps IH]; intros files H; simpl in H.
  - injection H as <-. constructor.
  - destruct (fs_promise s) as [|v|e] eqn:Es;
      [destruct (all_status ps); discriminate| |discriminate].
    destruct (all_status ps) as [|vs|]; try discriminate.
    injection H as <-. constructor; auto.
Qed.

Lemma chain_settled ps o n :
  o <> Pending -> chain ps o n = o.
Proof.
  intros Ho. unfold chain, settle_resolve, settle_reject.
  destruct (all_status (take n ps)), o; congruence.
Qed.

Lemma fold_chain_settled ps cs o :
  o <> Pending -> fold_left (chain ps) cs o = o.
Proof.
  revert o. induction cs as [|n cs IH]; intros o Ho; simpl; [reflexivity|].
  rewrite chain_settled by exact Ho. apply IH, Ho.
Qed.

Lemma fold_chain_pending ps cs o :
  fold_left (chain ps) cs o = Pending ->
  o = Pending /\ (forall n, In n cs -> all_status (take n ps) = AllPending).
Proof.
  revert o. induction cs as [|n cs IH]; intros o H; simpl in H.
  - split; [exact H|]. intros _ [].
  - destruct (IH _ H) as [Hc Hall]. unfold chain, settle_resolve, settle_reject in Hc.
    destruct (all_status (take n ps)) eqn:Es; destruct o; try discriminate.
    split; [reflexivity|]. intros m [<-|Hm]; auto.
Qed.

Lemma fold_chain_fulfilled ps cs o v :
  fold_left (chain ps) cs o = Fulfilled v ->
  o = Fulfilled v \/
  exists n files, In n cs /\ all_status (take n ps) = AllFulfilled files
                  /\ v = Some files.
Proof.
  revert o. induction cs as [|n cs IH]; intros o H; simpl in H; [auto|].
  destruct (IH _ H) as [Hc|[m [files [Hm [Hs ->]]]]].
  - unfold chain, settle_resolve, settle_reject in Hc.
    destruct (all_status (take n ps)) as [|files|e] eqn:Es;
      destruct o; try discriminate; auto.
    injection Hc as <-. right. exists n, files. simpl. auto.
  - right. exists m, files. simpl. auto.
Qed.

(** Reduce the projections of a freshly built engine state. *)
Ltac es_simpl :=
  repeat match goal with
  | |- context [promises (mkES ?a ?b ?c)] => change (promises (mkES a b c)) with a
  | |- context [all_calls (mkES ?a ?b ?c)] => change (all_calls (mkES a b c)) with b
  | |- context [outer (mkES ?a ?b ?c)] => change (outer (mkES a b c)) with c
  end.

(** *** The engine *)
Section Engine.
Context {F : Type} (on_file : F -> FileStream).
Hypothesis on_file_fresh :
  forall p, fs_chunks (on_file p) = [] /\ fs_promise (on_file p) = Pending.
Implicit Types (tr : list (event F)) (ev : event F).

Lemma run_snoc tr ev :
  run on_file (tr ++ [ev]) = step on_file (run on_file tr) ev.
Proof. unfold run. rewrite fold_left_app. reflexivity. Qed.

(** The promise the call returns settles once. *)
Lemma step_keeps_fulfilled st ev v :
  outer st = Fulfilled v -> outer (step on_file st ev) = Fulfilled v.
Proof.
  intros H. destruct ev; simpl; try exact H;
    try (rewrite fold_chain_settled; rewrite H; [reflexivity|discriminate]).
  rewrite H. reflexivity.
Qed.

Lemma fold_keeps_fulfilled tr st v :
  outer st = Fulfilled v -> outer (fold_left (step on_file) tr st) = Fulfilled v.
Proof.
  revert st. induction tr as [|ev tr IH]; intros st H; simpl; [exact H|].
  apply IH, step_keeps_fulfilled, H.
Qed.

(** Whatever the decoder does, the call never resolves to [null]. *)
Lemma run_fulfilled_some tr v :
  outer (run on_file tr) = Fulfilled v -> exists files, v = Some files.
Proof.
  induction tr as [|ev tr IH] using rev_ind; intros H; [discriminate|].
  rewrite run_snoc in H.
  destruct ev; simpl in H; try (apply IH, H);
    try (apply fold_chain_fulfilled in H as [H|[n [files [_ [_ ->]]]]];
         [apply IH, H|eauto]).
  destruct (outer (run on_file tr)); simpl in H; try discriminate.
  apply IH. rewrite H. reflexivity.
Qed.


(** *** Invariant of a protocol run *)

(** The events that concern stream [k]. *)
Definition targets (k : nat) (ev : event F) : bool :=
  match ev with
  | EvData j _ | EvEnd j | EvStreamError j _ => Nat.eqb j k
  | _ => false
  end.

(** What the [k]-th closure holds after the events [tr]. *)
Definition stream_ok (tr : list (event F)) (k : nat) (s : FileStream) : Prop :=
  (exists p, declared_files tr !! k = Some p /\ fs_name s = fs_name (on_file p)
             /\ fs_filename s = fs_filename (on_file p)
             /\ fs_mimeType s = fs_mimeType (on_file p)) /\
  fs_chunks s = received k tr /\
  (existsb (settles k) tr = false -> fs_promise s = Pending) /\
  (forall r, fs_promise s = Fulfilled r ->
     In (EvEnd k) tr /\
     r = mkMFD (fs_name s) (fs_filename s) (fs_mimeType s) (concat (fs_chunks s))) /\
  (forall e, In (EvStreamError k e) tr -> fs_promise s = Rejected e).

Definition engine_inv (tr : list (event F)) (st : EngineState) : Prop :=
  length (promises st) = length (declared_files tr) /\
  (forall k s, promises st !! k = Some s -> stream_ok tr k s) /\
  all_calls st = (if existsb is_finish tr then [length (declared_files tr)] else []) /\
  (forall v, outer st = Fulfilled v ->
     exists n files, In n (all_calls st) /\
       all_status (take n (promises st)) = AllFulfilled files /\ v = Some files) /\
  (outer st = Pending ->
     (forall e, ~ In (EvError e) tr) /\
     (forall n, In n (all_calls st) -> all_status (take n (promises st)) = AllPending)).

Lemma no_terminal_no_finish tr :
  existsb is_terminal tr = false -> existsb is_finish tr = false.
Proof. induction tr as [|[] tr IH]; simpl; auto; discriminate. Qed.

Lemma received_beyond tr k :
  decoder_protocol tr = true -> length (declared_files tr) <= k -> received k tr = [].
Proof.
  induction tr as [|x tr IH] using rev_ind; intros Hp Hk; [reflexivity|].
  apply protocol_snoc_inv in Hp as [Hp Hok].
  rewrite declared_files_app, length_app in Hk.
  rewrite received_app, IH by (auto; lia).
  destruct x as [p| |j c|j|j e| |e]; simpl; try reflexivity.
  simpl in Hok. apply andb_prop in Hok as [Hlt _]. apply Nat.ltb_lt in Hlt.
  destruct (Nat.eqb_spec j k); [lia|reflexivity].
Qed.

Lemma stream_ok_extend tr ev k s :
  k < length (declared_files tr) -> targets k ev = false ->
  stream_ok tr k s -> stream_ok (tr ++ [ev]) k s.
Proof.
  intros Hk Ht (Hmeta & Hch & Hpend & Hful & Herr).
  assert (Hnot : forall e, e <> ev -> targets k e = true -> In e (tr ++ [ev]) -> In e tr).
  { intros e Hne _ Hin. apply in_app_or in Hin as [Hin|[<-|[]]]; [exact Hin|congruence]. }
  split; [|split; [|split; [|split]]].
  - destruct Hmeta as [p Hp]. exists p.
    rewrite declared_files_app, lookup_app_l by exact Hk. exact Hp.
  - rewrite received_app, Hch. destruct ev; simpl in Ht |- *;
      rewrite ?app_nil_r; try reflexivity.
    rewrite Ht, app_nil_r. reflexivity.
  - intros H. apply Hpend. rewrite existsb_app in H.
    apply orb_false_iff in H as [H _]. exact H.
  - intros r Hr. destruct (Hful r Hr) as [Hin Hr']. split; [|exact Hr'].
    apply in_or_app. left. exact Hin.
  - intros e Hin. apply Herr. apply Hnot in Hin; auto.
    + intros Heq. subst ev. simpl in Ht. rewrite Nat.eqb_refl in Ht. discriminate.
    + simpl. apply Nat.eqb_refl.
Qed.

Lemma lookup_alter_Some (f : FileStream -> FileStream) (j k : nat)
    (ps : list FileStream) (s : FileStream) :
  alter f j ps !! k = Some s ->
  (j = k /\ exists s0, ps !! k = Some s0 /\ s = f s0) \/ (j <> k /\ ps !! k = Some s).
Proof.
  rewrite list_lookup_alter. case_decide as Hjk.
  - subst. intros H. apply fmap_Some in H as [s0 [H0 ->]]. left. eauto.
  - intros H. right. auto.
Qed.

Lemma targets_other j k (c : list byte) e :
  j <> k ->
  targets k (EvData j c) = false /\ targets k (EvEnd j) = false /\
  targets k (EvStreamError j e) = false.
Proof. intros H. simpl. apply Nat.eqb_neq in H. rewrite H. auto. Qed.


Lemma streams_extend tr ev (ps : list FileStream) :
  length ps = length (declared_files tr) -> (forall k, targets k ev = false) ->
  (forall k s, ps !! k = Some s -> stream_ok tr k s) ->
  forall k s, ps !! k = Some s -> stream_ok (tr ++ [ev]) k s.
Proof.
  intros Hlen Ht Hstr k s H. apply stream_ok_extend; auto.
  rewrite <- Hlen. eapply lookup_lt_Some. exact H.
Qed.

Lemma not_in_snoc {A} (x y : A) (l : list A) :
  In x (l ++ [y]) -> x <> y -> In x l.
Proof. intros H Hne. apply in_app_or in H as [H|[H|[]]]; [exact H|congruence]. Qed.

Lemma existsb_snoc {A} (f : A -> bool) (l : list A) (x : A) :
  existsb f (l ++ [x]) = existsb f l || f x.
Proof. rewrite existsb_app. simpl. rewrite orb_false_r. reflexivity. Qed.

Lemma engine_inv_init : engine_inv [] init_state.
Proof.
  repeat split; simpl; try discriminate; try (intros; discriminate);
    try (intros ? ? H; discriminate H); try (intros _ []); auto.
Qed.

Lemma engine_inv_file tr st p :
  decoder_protocol (tr ++ [EvFile p]) = true -> engine_inv tr st ->
  engine_inv (tr ++ [EvFile p]) (step on_file st (EvFile p)).
Proof.
  intros Hp (Hlen & Hstr & Hcalls & Hful & Hpen).
  apply protocol_snoc_inv in Hp as [Hp0 Hok]. simpl in Hok.
  apply negb_true_iff, no_terminal_no_finish in Hok as Hnf.
  rewrite Hnf in Hcalls.
  assert (Hd : declared_files (tr ++ [EvFile p]) = declared_files tr ++ [p])
    by (rewrite declared_files_app; reflexivity).
  unfold step, engine_inv. es_simpl.
  split; [|split; [|split; [|split]]].
  - rewrite Hd, !length_app. simpl. lia.
  - intros k s H. apply lookup_snoc_Some in H as [[Hk H]|[-> <-]].
    + apply stream_ok_extend; [lia|reflexivity|auto].
    + destruct (on_file_fresh p) as [Hc0 Hp1].
      split; [|split; [|split; [|split]]].
      * exists p. rewrite Hd, lookup_app_r by lia.
        replace (length (promises st) - length (declared_files tr)) with 0 by lia.
        auto.
      * rewrite Hc0, received_app, received_beyond by (auto; lia). reflexivity.
      * intros _. exact Hp1.
      * intros r Hr. congruence.
      * intros e Hin. apply not_in_snoc in Hin; [|discriminate].
        pose proof (settles_target (length (promises st)) _ tr Hp0 Hin) as Hlt.
        simpl in Hlt. rewrite Nat.eqb_refl in Hlt. specialize (Hlt eq_refl). lia.
  - rewrite Hcalls, existsb_snoc, Hnf. reflexivity.
  - intros v Hv. destruct (Hful v Hv) as [n [files [Hin _]]].
    rewrite Hcalls in Hin. destruct Hin.
  - intros Ho. destruct (Hpen Ho) as [Hne _]. split.
    + intros e Hin. apply not_in_snoc in Hin; [|discriminate]. exact (Hne e Hin).
    + rewrite Hcalls. intros _ [].
Qed.

Lemma engine_inv_field tr st :
  decoder_protocol (tr ++ [EvField]) = true -> engine_inv tr st ->
  engine_inv (tr ++ [EvField]) (step on_file st EvField).
Proof.
  intros Hp (Hlen & Hstr & Hcalls & Hful & Hpen).
  assert (Hd : declared_files (tr ++ [EvField]) = declared_files tr)
    by (rewrite declared_files_app, app_nil_r; reflexivity).
  unfold step. split; [|split; [|split; [|split]]].
  - rewrite Hd. exact Hlen.
  - apply streams_extend; auto.
  - rewrite Hcalls, existsb_snoc, orb_false_r, Hd. reflexivity.
  - exact Hful.
  - intros Ho. destruct (Hpen Ho) as [Hne Hall]. split; [|exact Hall].
    intros e Hin. apply not_in_snoc in Hin; [|discriminate]. exact (Hne e Hin).
Qed.


Lemma event_ok_stream tr k :
  Nat.ltb k (length (declared_files tr)) && negb (existsb (settles k) tr) = true ->
  k < length (declared_files tr) /\ existsb (settles k) tr = false.
Proof.
  intros H. apply andb_prop in H as [H1 H2].
  apply Nat.ltb_lt in H1. apply negb_true_iff in H2. auto.
Qed.

Lemma engine_inv_data tr st j c :
  decoder_protocol (tr ++ [EvData j c]) = true -> engine_inv tr st ->
  engine_inv (tr ++ [EvData j c]) (step on_file st (EvData j c)).
Proof.
  intros Hp (Hlen & Hstr & Hcalls & Hful & Hpen).
  apply protocol_snoc_inv in Hp as [Hp0 Hok]. simpl in Hok.
  apply event_ok_stream in Hok as [Hj Hns].
  assert (Hd : declared_files (tr ++ [EvData j c]) = declared_files tr)
    by (rewrite declared_files_app, app_nil_r; reflexivity).
  unfold step, engine_inv. es_simpl.
  split; [|split; [|split; [|split]]].
  - rewrite length_alter, Hd. exact Hlen.
  - intros k s H. apply lookup_alter_Some in H as [[<- [s0 [H0 ->]]]|[Hjk H]].
    + destruct (Hstr j s0 H0) as (Hmeta & Hch & Hpend & _ & Herr).
      specialize (Hpend Hns).
      split; [|split; [|split; [|split]]]; simpl.
      * destruct Hmeta as [q Hq]. exists q.
        rewrite declared_files_app, lookup_app_l by exact Hj. exact Hq.
      * rewrite received_app, Hch. simpl. rewrite Nat.eqb_refl. reflexivity.
      * intros _. exact Hpend.
      * intros r Hr. congruence.
      * intros e Hin. apply not_in_snoc in Hin; [|discriminate].
        rewrite (Herr e Hin) in Hpend. discriminate.
    + apply stream_ok_extend; auto.
      * rewrite <- Hlen. eapply lookup_lt_Some. exact H.
      * apply (targets_other j k c (JsNonError 0) Hjk).
  - rewrite Hcalls, existsb_snoc, orb_false_r, Hd. reflexivity.
  - intros v Hv. destruct (Hful v Hv) as [n [files [Hin [Hs ->]]]].
    exists n, files. rewrite all_status_take_alter_data. auto.
  - intros Ho. destruct (Hpen Ho) as [Hne Hall]. split.
    + intros e Hin. apply not_in_snoc in Hin; [|discriminate]. exact (Hne e Hin).
    + intros n Hn. rewrite all_status_take_alter_data. auto.
Qed.

Lemma stream_end_keeps s r :
  fs_promise s = Fulfilled r -> fs_promise (stream_end s) = Fulfilled r.
Proof. intros H. unfold stream_end. simpl. rewrite H. reflexivity. Qed.

Lemma stream_error_keeps e s r :
  fs_promise s = Fulfilled r -> fs_promise (stream_error e s) = Fulfilled r.
Proof. intros H. unfold stream_error. simpl. rewrite H. reflexivity. Qed.

Lemma engine_inv_end tr st j :
  decoder_protocol (tr ++ [EvEnd j]) = true -> engine_inv tr st ->
  engine_inv (tr ++ [EvEnd j]) (step on_file st (EvEnd j)).
Proof.
  intros Hp (Hlen & Hstr & Hcalls & Hful & Hpen).
  apply protocol_snoc_inv in Hp as [Hp0 Hok]. simpl in Hok.
  apply event_ok_stream in Hok as [Hj Hns].
  assert (Hd : declared_files (tr ++ [EvEnd j]) = declared_files tr)
    by (rewrite declared_files_app, app_nil_r; reflexivity).
  unfold step, react, engine_inv. es_simpl.
  split; [|split; [|split; [|split]]].
  - rewrite length_alter, Hd. exact Hlen.
  - intros k s H. apply lookup_alter_Some in H as [[<- [s0 [H0 ->]]]|[Hjk H]].
    + destruct (Hstr j s0 H0) as (Hmeta & Hch & Hpend & _ & Herr).
      specialize (Hpend Hns).
      split; [|split; [|split; [|split]]]; simpl.
      * destruct Hmeta as [q Hq]. exists q.
        rewrite declared_files_app, lookup_app_l by exact Hj. exact Hq.
      * rewrite received_app, Hch. simpl. rewrite app_nil_r. reflexivity.
      * rewrite existsb_snoc. simpl. rewrite Nat.eqb_refl, orb_true_r.
        discriminate.
      * rewrite Hpend. simpl. intros r Hr. injection Hr as <-.
        split; [apply in_or_app; right; left; reflexivity|reflexivity].
      * intros e Hin. apply not_in_snoc in Hin; [|discriminate].
        rewrite (Herr e Hin) in Hpend. discriminate.
    + apply stream_ok_extend; auto.
      * rewrite <- Hlen. eapply lookup_lt_Some. exact H.
      * apply (targets_other j k [] (JsNonError 0) Hjk).
  - rewrite Hcalls, existsb_snoc, orb_false_r, Hd. reflexivity.
  - intros v Hv. apply fold_chain_fulfilled in Hv as [Hv|Hv]; [|exact Hv].
    destruct (Hful v Hv) as [n [files [Hin [Hs ->]]]].
    exists n, files. split; [exact Hin|split; [|reflexivity]].
    apply all_status_take_alter_fulfilled; [exact stream_end_keeps|exact Hs].
  - intros Ho. apply fold_chain_pending in Ho as [Ho Hall]. split; [|exact Hall].
    intros e Hin. apply not_in_snoc in Hin; [|discriminate].
    exact (proj1 (Hpen Ho) e Hin).
Qed.

Lemma engine_inv_stream_error tr st j e :
  decoder_protocol (tr ++ [EvStreamError j e]) = true -> engine_inv tr st ->
  engine_inv (tr ++ [EvStreamError j e]) (step on_file st (EvStreamError j e)).
Proof.
  intros Hp (Hlen & Hstr & Hcalls & Hful & Hpen).
  apply protocol_snoc_inv in Hp as [Hp0 Hok]. simpl in Hok.
  apply event_ok_stream in Hok as [Hj Hns].
  assert (Hd : declared_files (tr ++ [EvStreamError j e]) = declared_files tr)
    by (rewrite declared_files_app, app_nil_r; reflexivity).
  unfold step, react, engine_inv. es_simpl.
  split; [|split; [|split; [|split]]].
  - rewrite length_alter, Hd. exact Hlen.
  - intros k s H. apply lookup_alter_Some in H as [[<- [s0 [H0 ->]]]|[Hjk H]].
    + destruct (Hstr j s0 H0) as (Hmeta & Hch & Hpend & _ & Herr).
      specialize (Hpend Hns).
      split; [|split; [|split; [|split]]]; simpl.
      * destruct Hmeta as [q Hq]. exists q.
        rewrite declared_files_app, lookup_app_l by exact Hj. exact Hq.
      * rewrite received_app, Hch. simpl. rewrite app_nil_r. reflexivity.
      * rewrite existsb_snoc. simpl. rewrite Nat.eqb_refl, orb_true_r.
        discriminate.
      * rewrite Hpend. simpl. intros r Hr. discriminate.
      * intros e' Hin. apply in_app_or in Hin as [Hin|[Heq|[]]].
        -- rewrite (Herr e' Hin) in Hpend. discriminate.
        -- injection Heq as <-. rewrite Hpend. reflexivity.
    + apply stream_ok_extend; auto.
      * rewrite <- Hlen. eapply lookup_lt_Some. exact H.
      * apply (targets_other j k [] e Hjk).
  - rewrite Hcalls, existsb_snoc, orb_false_r, Hd. reflexivity.
  - intros v Hv. apply fold_chain_fulfilled in Hv as [Hv|Hv]; [|exact Hv].
    destruct (Hful v Hv) as [n [files [Hin [Hs ->]]]].
    exists n, files. split; [exact Hin|split; [|reflexivity]].
    apply all_status_take_alter_fulfilled; [exact (stream_error_keeps e)|exact Hs].
  - intros Ho. apply fold_chain_pending in Ho as [Ho Hall]. split; [|exact Hall].
    intros e' Hin. apply not_in_snoc in Hin; [|discriminate].
    exact (proj1 (Hpen Ho) e' Hin).
Qed.

Lemma engine_inv_finish tr st :
  decoder_protocol (tr ++ [EvFinish]) = true -> engine_inv tr st ->
  engine_inv (tr ++ [EvFinish]) (step on_file st EvFinish).
Proof.
  intros Hp (Hlen & Hstr & Hcalls & Hful & Hpen).
  apply protocol_snoc_inv in Hp as [Hp0 Hok]. simpl in Hok.
  apply negb_true_iff, no_terminal_no_finish in Hok as Hnf.
  rewrite Hnf in Hcalls.
  assert (Hd : declared_files (tr ++ [EvFinish]) = declared_files tr)
    by (rewrite declared_files_app, app_nil_r; reflexivity).
  unfold step, react, engine_inv. es_simpl.
  split; [|split; [|split; [|split]]].
  - rewrite Hd. exact Hlen.
  - apply streams_extend; auto.
  - rewrite Hcalls, existsb_snoc, Hd, Hlen. simpl. rewrite orb_true_r. reflexivity.
  - intros v Hv. apply fold_chain_fulfilled in Hv as [Hv|Hv]; [|exact Hv].
    destruct (Hful v Hv) as [n [files [Hin _]]]. rewrite Hcalls in Hin. destruct Hin.
  - intros Ho. apply fold_chain_pending in Ho as [Ho Hall]. split; [|exact Hall].
    intros e Hin. apply not_in_snoc in Hin; [|discriminate].
    exact (proj1 (Hpen Ho) e Hin).
Qed.

Lemma engine_inv_error tr st e :
  decoder_protocol (tr ++ [EvError e]) = true -> engine_inv tr st ->
  engine_inv (tr ++ [EvError e]) (step on_file st (EvError e)).
Proof.
  intros Hp (Hlen & Hstr & Hcalls & Hful & Hpen).
  assert (Hd : declared_files (tr ++ [EvError e]) = declared_files tr)
    by (rewrite declared_files_app, app_nil_r; reflexivity).
  unfold step, engine_inv. es_simpl.
  split; [|split; [|split; [|split]]].
  - rewrite Hd. exact Hlen.
  - apply streams_extend; auto.
  - rewrite Hcalls, existsb_snoc, orb_false_r, Hd. reflexivity.
  - intros v Hv. apply Hful. destruct (outer st); simpl in Hv; congruence.
  - intros Ho. destruct (outer st); simpl in Ho; discriminate.
Qed.

Lemma engine_inv_run tr :
  decoder_protocol tr = true -> engine_inv tr (run on_file tr).
Proof.
  induction tr as [|ev tr IH] using rev_ind; intros Hp; [exact engine_inv_init|].
  pose proof Hp as Hp'. apply protocol_snoc_inv in Hp' as [Hp0 _].
  rewrite run_snoc. specialize (IH Hp0).
  destruct ev.
  - apply engine_inv_file; auto.
  - apply engine_inv_field; auto.
  - apply engine_inv_data; auto.
  - apply engine_inv_end; auto.
  - apply engine_inv_stream_error; auto.
  - apply engine_inv_finish; auto.
  - apply engine_inv_error; auto.
Qed.

(** *** What a settled run looks like *)

Lemma existsb_in {A} (f : A -> bool) (x : A) (l : list A) :
  In x l -> f x = true -> existsb f l = true.
Proof. intros Hin Hf. apply existsb_exists. eauto. Qed.

(** After ['finish'], the one [Promise.all] call covers every file part. *)
Lemma finish_calls tr st :
  engine_inv tr st -> existsb is_finish tr = true ->
  forall n, In n (all_calls st) -> take n (promises st) = promises st.
Proof.
  intros (Hlen & _ & Hcalls & _) Hf n Hn. rewrite Hcalls, Hf in Hn.
  destruct Hn as [<-|[]]. apply take_ge. lia.
Qed.

(** The call resolves only once the decoder has finished and every file
    stream has ended, and then to one record per file part, in body order,
    with the bytes received for it. *)
Lemma resolved_shape tr v :
  decoder_protocol tr = true -> outer (run on_file tr) = Fulfilled v ->
  existsb is_finish tr = true /\
  (forall k, k < length (declared_files tr) -> In (EvEnd k) tr) /\
  v = Some (expected_files on_file tr).
Proof.
  intros Hp Hv. pose proof (engine_inv_run tr Hp) as Hinv.
  pose proof Hinv as (Hlen & Hstr & Hcalls & Hful & _).
  destruct (Hful v Hv) as [n [files [Hin [Hs ->]]]].
  assert (Hf : existsb is_finish tr = true).
  { rewrite Hcalls in Hin. destruct (existsb is_finish tr); [reflexivity|destruct Hin]. }
  rewrite (finish_calls tr _ Hinv Hf n Hin) in Hs.
  apply all_status_fulfilled in Hs.
  split; [exact Hf|split].
  - intros k Hk. rewrite <- Hlen in Hk.
    apply lookup_lt_is_Some_2 in Hk as [s Hs'].
    destruct (Forall2_lookup_l _ _ _ _ _ Hs Hs') as [r [_ Hr]].
    destruct (Hstr k s Hs') as (_ & _ & _ & Hfu & _). exact (proj1 (Hfu r Hr)).
  - f_equal. apply list_eq. intros k. unfold expected_files.
    rewrite list_lookup_imap.
    destruct (promises (run on_file tr) !! k) as [s|] eqn:Es.
    + destruct (Forall2_lookup_l _ _ _ _ _ Hs Es) as [r [Hr Hpr]]. rewrite Hr.
      destruct (Hstr k s Es) as ([q [Hq [Hn [Hfn Hm]]]] & Hch & _ & Hfu & _).
      rewrite Hq. simpl. destruct (Hfu r Hpr) as [_ ->].
      rewrite Hn, Hfn, Hm, Hch. reflexivity.
    + apply lookup_ge_None in Es.
      rewrite (lookup_ge_None_2 files k), (lookup_ge_None_2 (declared_files tr) k);
        [reflexivity| |].
      * rewrite <- Hlen. exact Es.
      * rewrite <- (Forall2_length _ _ _ Hs). exact Es.
Qed.

(** A call that ends rejected was never resolved at any earlier point. *)
Lemma rejected_never_fulfilled tr e n v :
  outer (run on_file tr) = Rejected e -> outer (run on_file (take n tr)) <> Fulfilled v.
Proof.
  intros Hr Hf. rewrite <- (take_drop n tr) in Hr. unfold run in Hr, Hf.
  rewrite fold_left_app in Hr. rewrite (fold_keeps_fulfilled _ _ v Hf) in Hr.
  discriminate.
Qed.

End Engine.

(** *** The two extractors *)

Lemma fastify_fresh p :
  fs_chunks (fastify_on_file p) = [] /\ fs_promise (fastify_on_file p) = Pending.
Proof. split; reflexivity. Qed.

Lemma busboy_fresh p :
  fs_chunks (busboy_on_file p) = [] /\ fs_promise (busboy_on_file p) = Pending.
Proof. split; reflexivity. Qed.

(** The first character check is implied by the prefix check, since the
    prefix starts with ['m'] (code 109). *)
Lemma getContentType_spec {F} (req : Request F) :
  getContentType req =
  match content_type req with
  | None => None
  | Some ct => if startsWith ct multipart_prefix then Some ct else None
  end.
Proof.
  unfold getContentType. destruct (content_type req) as [[|c ct]|]; try reflexivity.
  cbn [truthy_str charCodeAt0 negb orb].
  destruct (N.eqb c 109) eqn:Ec.
  - cbn [negb orb].
    destruct (startsWith (c :: ct) multipart_prefix); reflexivity.
  - change multipart_prefix with (109%N :: lit "ultipart/form-data").
    cbn [startsWith]. rewrite N.eqb_sym, Ec. reflexivity.
Qed.

Lemma getContentType_applicable {F} (req : Request F) :
  getContentType req = None <-> applicable (content_type req) = false.
Proof.
  rewrite getContentType_spec. unfold applicable.
  destruct (content_type req) as [ct|]; [|tauto].
  destruct (startsWith ct multipart_prefix); split; congruence.
Qed.

Lemma getMultipartFormData_null req :
  snd (getMultipartFormData req) = Fulfilled None <-> getContentType req = None.
Proof.
  unfold getMultipartFormData. destruct (getContentType req); simpl; [|tauto].
  destruct (decoder_init req); simpl; [split; discriminate|].
  split; [|discriminate]. intros H.
  destruct (run_fulfilled_some fastify_on_file _ _ H) as [files Hf]. discriminate.
Qed.

Lemma readMultipartFormData_null req :
  snd (readMultipartFormData req) = Fulfilled None <-> getContentType req = None.
Proof.
  unfold readMultipartFormData. destruct (getContentType req); simpl; [|tauto].
  destruct (decoder_init req); simpl; [split; discriminate|].
  split; [|discriminate]. intros H.
  destruct (run_fulfilled_some busboy_on_file _ _ H) as [files Hf]. discriminate.
Qed.

Lemma step_same st a b :
  same_event a b -> step fastify_on_file st a = step busboy_on_file st b.
Proof.
  intros H. destruct a, b; simpl in H; try contradiction; unfold same_file in *;
    repeat match goal with H : _ /\ _ |- _ => destruct H end; subst; try reflexivity.
  simpl. unfold fastify_on_file, busboy_on_file. congruence.
Qed.

(** Fed the same parts, the two extractors' engines go through the same
    states. *)
Lemma run_same tr1 tr2 :
  Forall2 same_event tr1 tr2 -> run fastify_on_file tr1 = run busboy_on_file tr2.
Proof.
  intros H. unfold run. generalize init_state.
  induction H as [|a b tr1 tr2 Hab _ IH]; intros st; simpl; [reflexivity|].
  rewrite (step_same st a b Hab). apply IH.
Qed.

(** An applicable request whose decoder is built has its body piped and
    parsed. *)
Lemma getMultipartFormData_applicable req :
  getContentType req <> None -> decoder_init req = None ->
  getMultipartFormData req = (true, outer (run fastify_on_file (body req))).
Proof.
  intros H Hi. unfold getMultipartFormData. rewrite Hi.
  destruct (getContentType req); congruence.
Qed.

Lemma readMultipartFormData_applicable req :
  getContentType req <> None -> decoder_init req = None ->
  readMultipartFormData req = (true, outer (run busboy_on_file (body req))).
Proof.
  intros H Hi. unfold readMultipartFormData. rewrite Hi.
  destruct (getContentType req); congruence.
Qed.

(** A call on an applicable request that resolved was parsed: its decoder
    was built and the engine resolved to the same value. *)
Lemma getMultipartFormData_fulfilled req v :
  getContentType req <> None -> snd (getMultipartFormData req) = Fulfilled v ->
  outer (run fastify_on_file (body req)) = Fulfilled v.
Proof.
  unfold getMultipartFormData. destruct (getContentType req); [|congruence].
  destruct (decoder_init req); simpl; congruence.
Qed.

Lemma readMultipartFormData_fulfilled req v :
  getContentType req <> None -> snd (readMultipartFormData req) = Fulfilled v ->
  outer (run busboy_on_file (body req)) = Fulfilled v.
Proof.
  unfold readMultipartFormData. destruct (getContentType req); [|congruence].
  destruct (decoder_init req); simpl; congruence.
Qed.

Lemma getMultipartFormData_fulfilled_some req files :
  snd (getMultipartFormData req) = Fulfilled (Some files) ->
  outer (run fastify_on_file (body req)) = Fulfilled (Some files).
Proof.
  unfold getMultipartFormData.
  destruct (getContentType req); [destruct (decoder_init req)|]; simpl; congruence.
Qed.

Lemma readMultipartFormData_fulfilled_some req files :
  snd (readMultipartFormData req) = Fulfilled (Some files) ->
  outer (run busboy_on_file (body req)) = Fulfilled (Some files).
Proof.
  unfold readMultipartFormData.
  destruct (getContentType req); [destruct (decoder_init req)|]; simpl; congruence.
Qed.

Lemma records_buffer {F} (on_file : F -> FileStream) tr k r :
  expected_files on_file tr !! k = Some r -> buffer r = concat (received k tr).
Proof.
  unfold expected_files. rewrite list_lookup_imap. intros H.
  apply fmap_Some in H as [p [_ ->]]. reflexivity.
Qed.

Lemma getContentType_same_header {F} (req : Request F) i (b : list (event F)) :
  getContentType (mkRequest (content_type req) i b) = getContentType req.
Proof. reflexivity. Qed.

(* ------------------------------------------------------------------ *)
(** *** Claims *)

(** C3: a request whose [content-type] header is absent or does not begin
    with [multipart/form-data] gets [null] at once, and its body is not
    piped into the decoder (first component [false]); any other request
    proceeds to parsing: the decoder is built from the request headers,
    and then either its constructor refuses them and the call rejects with
    the thrown value before anything is piped, or the body is piped into
    the decoder and parsed.  The first-character check never changes the
    decision.  Both extractors. *)
Theorem C3_applicability :
  (forall req : Request FastifyFile,
     getMultipartFormData req =
       if applicable (content_type req)
       then match decoder_init req with
            | Some e => (false, Rejected e)
            | None => (true, outer (run fastify_on_file (body req)))
            end
       else (false, Fulfilled None)) /\
  (forall req : Request BusboyFile,
     readMultipartFormData req =
       if applicable (content_type req)
       then match decoder_init req with
            | Some e => (false, Rejected e)
            | None => (true, outer (run busboy_on_file (body req)))
            end
       else (false, Fulfilled None)).
Proof.
  split; intros req;
    unfold getMultipartFormData, readMultipartFormData;
    rewrite getContentType_spec; unfold applicable;
    destruct (content_type req) as [ct|]; try reflexivity;
    destruct (startsWith ct multipart_prefix); reflexivity.
Qed.

(** C4: for an applicable request whose decoder follows the protocol, the
    [k]-th record the call resolves to carries as [buffer] exactly the
    concatenation, in arrival order, of the chunks received for the [k]-th
    file part: no byte dropped, added or decoded.  Both extractors. *)
Theorem C4_file_bytes_exact :
  (forall (req : Request FastifyFile) files,
     decoder_protocol (body req) = true ->
     snd (getMultipartFormData req) = Fulfilled (Some files) ->
     forall k r, files !! k = Some r -> buffer r = concat (received k (body req))) /\
  (forall (req : Request BusboyFile) files,
     decoder_protocol (body req) = true ->
     snd (readMultipartFormData req) = Fulfilled (Some files) ->
     forall k r, files !! k = Some r -> buffer r = concat (received k (body req))).
Proof.
  split; intros req files Hp Hr k r Hk.
  - apply getMultipartFormData_fulfilled_some in Hr.
    destruct (resolved_shape fastify_on_file fastify_fresh _ _ Hp Hr) as (_ & _ & Hv).
    injection Hv as ->. exact (records_buffer _ _ _ _ Hk).
  - apply readMultipartFormData_fulfilled_some in Hr.
    destruct (resolved_shape busboy_on_file busboy_fresh _ _ Hp Hr) as (_ & _ & Hv).
    injection Hv as ->. exact (records_buffer _ _ _ _ Hk).
Qed.

Lemma C4_file_bytes_exact_witness :
  decoder_protocol (body req_ok_ff) = true /\
  snd (getMultipartFormData req_ok_ff) = Fulfilled (Some files_ok) /\
  files_ok !! 0 = Some (mkMFD (lit "avatar") (lit "a.bin")
                              (lit "application/octet-stream") [x00; xff; x0a; x0d]) /\
  [x00; xff; x0a; x0d] = concat (received 0 (body req_ok_ff)) /\
  [x00; xff; x0a; x0d] = concat (received 0 (body req_ok_bb)).
Proof.
  split; [vm_compute; reflexivity|].
  split; [vm_compute; reflexivity|].
  split; [reflexivity|]. split.
  - refine (proj1 C4_file_bytes_exact req_ok_ff files_ok _ _ 0
             (mkMFD (lit "avatar") (lit "a.bin")
                    (lit "application/octet-stream") [x00; xff; x0a; x0d]) _);
      vm_compute; reflexivity.
  - refine (proj2 C4_file_bytes_exact req_ok_bb files_ok _ _ 0
             (mkMFD (lit "avatar") (lit "a.bin")
                    (lit "application/octet-stream") [x00; xff; x0a; x0d]) _);
      vm_compute; reflexivity.
Defined.

(** C5: for an applicable request whose decoder follows the protocol, the
    call resolves only after the decoder reported ['finish'] and every file
    stream ended, and it resolves to one record per file part, in the order
    of the parts in the body (fields give none), each with the part's field
    name, filename, MIME type and received bytes.  Both extractors. *)
Theorem C5_resolves_after_finish_in_order :
  (forall (req : Request FastifyFile) v,
     decoder_protocol (body req) = true -> getContentType req <> None ->
     snd (getMultipartFormData req) = Fulfilled v ->
     existsb is_finish (body req) = true /\
     (forall k, k < length (declared_files (body req)) -> In (EvEnd k) (body req)) /\
     v = Some (expected_files fastify_on_file (body req))) /\
  (forall (req : Request BusboyFile) v,
     decoder_protocol (body req) = true -> getContentType req <> None ->
     snd (readMultipartFormData req) = Fulfilled v ->
     existsb is_finish (body req) = true /\
     (forall k, k < length (declared_files (body req)) -> In (EvEnd k) (body req)) /\
     v = Some (expected_files busboy_on_file (body req))).
Proof.
  split; intros req v Hp Hct Hr.
  - apply getMultipartFormData_fulfilled in Hr; [|exact Hct].
    exact (resolved_shape fastify_on_file fastify_fresh _ _ Hp Hr).
  - apply readMultipartFormData_fulfilled in Hr; [|exact Hct].
    exact (resolved_shape busboy_on_file busboy_fresh _ _ Hp Hr).
Qed.

Lemma C5_resolves_after_finish_in_order_witness :
  decoder_protocol (body req_ok_ff) = true /\ getContentType req_ok_ff <> None /\
  snd (getMultipartFormData req_ok_ff) = Fulfilled (Some files_ok) /\
  length files_ok = 2 /\
  Some files_ok = Some (expected_files fastify_on_file (body req_ok_ff)) /\
  Some files_ok = Some (expected_files busboy_on_file (body req_ok_bb)).
Proof.
  split; [vm_compute; reflexivity|].
  split; [vm_compute; discriminate|].
  split; [vm_compute; reflexivity|].
  split; [reflexivity|]. split.
  - apply (proj1 C5_resolves_after_finish_in_order req_ok_ff (Some files_ok));
      [vm_compute; reflexivity|vm_compute; discriminate|vm_compute; reflexivity].
  - apply (proj2 C5_resolves_after_finish_in_order req_ok_bb (Some files_ok));
      [vm_compute; reflexivity|vm_compute; discriminate|vm_compute; reflexivity].
Defined.

(** C10: with the same [content-type] header, the two extractors agree on
    applicability: each returns [null] exactly when the other does,
    whatever their decoders do.  And when their decoders behave alike
    (both constructors build a decoder, or both throw the same value, and
    the decoders deliver the same events: the same parts with the same
    field names, filenames, MIME types and chunks, and the same errors),
    the two calls have the same outcome: both resolve to the same records,
    or both reject with the same value, or both are still pending, and
    both pipe the body or neither does.  (The two libraries' constructors
    do not refuse the same headers: busboy throws for a subtype other than
    [form-data], such as [multipart/form-data-x], which @fastify/busboy
    accepts; such a pair of decoders is outside the second part.) *)
Theorem C10_extractors_equivalent (req1 : Request FastifyFile)
    (req2 : Request BusboyFile) :
  content_type req1 = content_type req2 ->
  (snd (getMultipartFormData req1) = Fulfilled None <->
   snd (readMultipartFormData req2) = Fulfilled None) /\
  (decoder_init req1 = decoder_init req2 ->
   Forall2 same_event (body req1) (body req2) ->
   getMultipartFormData req1 = readMultipartFormData req2).
Proof.
  intros Hct.
  assert (Hg : getContentType req1 = getContentType req2)
    by (unfold getContentType; rewrite Hct; reflexivity).
  split.
  - rewrite getMultipartFormData_null, readMultipartFormData_null, Hg. tauto.
  - intros Hi Hsame. unfold getMultipartFormData, readMultipartFormData.
    rewrite Hg, Hi, (run_same _ _ Hsame). reflexivity.
Qed.

Lemma C10_extractors_equivalent_witness :
  getMultipartFormData req_ok_ff = readMultipartFormData req_ok_bb /\
  getMultipartFormData req_sfail_ff = readMultipartFormData req_sfail_bb /\
  (snd (getMultipartFormData (mkRequest (Some (lit "text/plain")) None (body_ok ff_avatar ff_doc)))
   = Fulfilled None <->
   snd (readMultipartFormData (mkRequest (Some (lit "text/plain")) None (body_ok bb_avatar bb_doc)))
   = Fulfilled None).
Proof.
  split; [|split].
  - apply (C10_extractors_equivalent req_ok_ff req_ok_bb eq_refl); [reflexivity|].
    vm_compute. repeat constructor.
  - apply (C10_extractors_equivalent req_sfail_ff req_sfail_bb eq_refl); [reflexivity|].
    vm_compute. repeat constructor.
  - exact (proj1 (C10_extractors_equivalent
                    (mkRequest (Some (lit "text/plain")) None (body_ok ff_avatar ff_doc))
                    (mkRequest (Some (lit "text/plain")) None (body_ok bb_avatar bb_doc))
                    eq_refl)).
Defined.

End MultipartProofs.

(* ------------------------------------------------------------------ *)
(** ** Multipart extractors: settlement, failures and completion *)

Module MultipartMore.
Import Multipart MultipartSamples MultipartProofs.

(** [Promise.all] rejects with the reason of one of its promises. *)
Lemma all_status_rejected_lookup ps e :
  all_status ps = AllRejected e ->
  exists k s, ps !! k = Some s /\ fs_promise s = Rejected e.
Proof.
  induction ps as [|s ps IH]; simpl; [discriminate|].
  destruct (fs_promise s) as [|v|e'] eqn:Es.
  - destruct (all_status ps) eqn:Ea; try discriminate.
    intros [= ->]. destruct (IH eq_refl) as [k [s' H]]. exists (S k), s'. exact H.
  - destruct (all_status ps) eqn:Ea; try discriminate.
    intros [= ->]. destruct (IH eq_refl) as [k [s' H]]. exists (S k), s'. exact H.
  - intros [= ->]. exists 0, s. auto.
Qed.

(** Every file part's promise is fulfilled: [Promise.all] is. *)
Lemma all_status_all_fulfilled ps :
  (forall k s, ps !! k = Some s -> exists r, fs_promise s = Fulfilled r) ->
  exists files, all_status ps = AllFulfilled files.
Proof.
  induction ps as [|s ps IH]; intros H; simpl; [eauto|].
  destruct (H 0 s eq_refl) as [r Hr]. rewrite Hr.
  destruct IH as [files Hf]; [intros k s' Hk; exact (H (S k) s' Hk)|].
  rewrite Hf. eauto.
Qed.

Lemma fold_chain_rejected ps cs o e :
  fold_left (chain ps) cs o = Rejected e ->
  o = Rejected e \/
  exists n err, all_status (take n ps) = AllRejected err /\ e = catch_error err.
Proof.
  revert o. induction cs as [|n cs IH]; intros o H; simpl in H; [auto|].
  destruct (IH _ H) as [Hc|Hc]; [|right; exact Hc].
  unfold chain, settle_resolve, settle_reject in Hc.
  destruct (all_status (take n ps)) as [|files|err] eqn:Es;
    destruct o; try discriminate; auto.
  injection Hc as <-. right. exists n, err. auto.
Qed.

Lemma in_snoc_other {A} (x y : A) (l : list A) :
  In x (l ++ [y]) -> x <> y -> In x l.
Proof. intros H Hne. apply in_app_or in H as [H|[H|[]]]; [exact H|congruence]. Qed.

Section Settlement.
Context {F : Type} (on_file : F -> FileStream).
Hypothesis on_file_fresh :
  forall p, fs_chunks (on_file p) = [] /\ fs_promise (on_file p) = Pending.
Implicit Types (tr : list (event F)) (ev : event F).

Lemma promises_step_end st k :
  promises (step on_file st (EvEnd k)) = alter stream_end k (promises st).
Proof. reflexivity. Qed.

Lemma promises_step_stream_error st k e :
  promises (step on_file st (EvStreamError k e)) = alter (stream_error e) k (promises st).
Proof. reflexivity. Qed.

(** A file promise is rejected only with the reason its stream reported. *)
Lemma rejected_stream tr k s e :
  promises (run on_file tr) !! k = Some s -> fs_promise s = Rejected e ->
  In (EvStreamError k e) tr.
Proof.
  revert k s e.
  induction tr as [|ev tr IH] using rev_ind; intros k s e Hs He; [discriminate|].
  rewrite run_snoc in Hs. apply in_or_app. destruct ev as [p| |j c|j|j e'| |e'].
  - simpl in Hs. apply lookup_snoc_Some in Hs as [[_ Hs]|[_ <-]].
    + left. exact (IH k s e Hs He).
    + destruct (on_file_fresh p) as [_ Hp]. congruence.
  - left. exact (IH k s e Hs He).
  - simpl in Hs. apply lookup_alter_Some in Hs as [[<- [s0 [H0 ->]]]|[_ Hs]].
    + left. exact (IH j s0 e H0 He).
    + left. exact (IH k s e Hs He).
  - rewrite promises_step_end in Hs.
    apply lookup_alter_Some in Hs as [[<- [s0 [H0 ->]]]|[_ Hs]].
    + left. apply (IH j s0 e H0). unfold stream_end, settle_resolve in He. simpl in He.
      destruct (fs_promise s0); congruence.
    + left. exact (IH k s e Hs He).
  - rewrite promises_step_stream_error in Hs.
    apply lookup_alter_Some in Hs as [[<- [s0 [H0 ->]]]|[_ Hs]].
    + unfold stream_error, settle_reject in He. simpl in He.
      destruct (fs_promise s0) eqn:E0; try discriminate.
      * injection He as ->. right. left. reflexivity.
      * left. apply (IH j s0 e H0). congruence.
    + left. exact (IH k s e Hs He).
  - left. exact (IH k s e Hs He).
  - left. exact (IH k s e Hs He).
Qed.

(** Why the returned promise rejects: the decoder's own error, passed on
    as it is, or a file stream's error, through the [.catch] handler. *)
Lemma outer_rejected_cause tr e :
  outer (run on_file tr) = Rejected e ->
  In (EvError e) tr \/
  exists k e0, In (EvStreamError k e0) tr /\ e = catch_error e0.
Proof.
  induction tr as [|ev tr IH] using rev_ind; intros He; [discriminate|].
  assert (Hold : outer (run on_file tr) = Rejected e ->
                 In (EvError e) (tr ++ [ev]) \/
                 exists k e0, In (EvStreamError k e0) (tr ++ [ev]) /\ e = catch_error e0).
  { intros H. destruct (IH H) as [H1|[k [e0 [H1 H2]]]].
    - left. apply in_or_app. auto.
    - right. exists k, e0. split; [apply in_or_app; auto|exact H2]. }
  assert (Hchain : forall n err,
            all_status (take n (promises (run on_file (tr ++ [ev])))) = AllRejected err ->
            e = catch_error err ->
            exists k e0, In (EvStreamError k e0) (tr ++ [ev]) /\ e = catch_error e0).
  { intros n err Ha ->. apply all_status_rejected_lookup in Ha as [k [s [Hk Hr]]].
    apply lookup_take_Some in Hk as [Hk _].
    exists k, err. split; [|reflexivity]. exact (rejected_stream _ k s err Hk Hr). }
  pose proof (run_snoc on_file tr ev) as Hrun.
  rewrite Hrun in He, Hchain. destruct ev.
  - exact (Hold He).
  - exact (Hold He).
  - exact (Hold He).
  - apply fold_chain_rejected in He as [He|[n [err [Ha He]]]];
      [exact (Hold He)|right; exact (Hchain n err Ha He)].
  - apply fold_chain_rejected in He as [He|[n [err [Ha He]]]];
      [exact (Hold He)|right; exact (Hchain n err Ha He)].
  - apply fold_chain_rejected in He as [He|[n [err [Ha He]]]];
      [exact (Hold He)|right; exact (Hchain n err Ha He)].
  - simpl in He. destruct (outer (run on_file tr)) eqn:Eo; simpl in He.
    + injection He as ->. left. apply in_or_app. right. left. reflexivity.
    + discriminate.
    + apply Hold. congruence.
Qed.

(** The returned promise settles once. *)
Lemma step_keeps_settled st ev :
  outer st <> Pending -> outer (step on_file st ev) = outer st.
Proof.
  intros H. destruct ev; simpl; try reflexivity;
    try (apply fold_chain_settled; exact H).
  destruct (outer st); [contradiction|reflexivity|reflexivity].
Qed.

Lemma run_keeps_settled tr1 tr2 :
  outer (run on_file tr1) <> Pending ->
  outer (run on_file (tr1 ++ tr2)) = outer (run on_file tr1).
Proof.
  induction tr2 as [|ev tr2 IH] using rev_ind; intros H.
  - rewrite app_nil_r. reflexivity.
  - rewrite app_assoc, run_snoc, step_keeps_settled; [exact (IH H)|].
    rewrite (IH H). exact H.
Qed.

(** *** Failures, for any decoder run *)

(** Before the decoder's first ['finish'] no [Promise.all] has been
    called, so the returned promise has not resolved. *)
Lemma no_finish_unresolved tr :
  ~ In EvFinish tr ->
  all_calls (run on_file tr) = [] /\ forall v, outer (run on_file tr) <> Fulfilled v.
Proof.
  induction tr as [|ev tr IH] using rev_ind; intros Hn; [split; [reflexivity|discriminate]|].
  assert (Hn' : ~ In EvFinish tr) by (intros H; apply Hn, in_or_app; left; exact H).
  destruct (IH Hn') as [Hc Ho]. rewrite run_snoc.
  destruct ev; simpl; rewrite ?Hc; simpl; try (split; [reflexivity|exact Ho]).
  - exfalso. apply Hn, in_or_app. right. left. reflexivity.
  - split; [reflexivity|]. intros v. destruct (outer (run on_file tr)) eqn:Eo; simpl;
      try discriminate. apply Ho.
Qed.

(** One stream per ['file'] event. *)
Lemma promises_length tr :
  length (promises (run on_file tr)) = length (declared_files tr).
Proof.
  induction tr as [|ev tr IH] using rev_ind; [reflexivity|].
  rewrite run_snoc, declared_files_app.
  destruct ev; simpl; rewrite ?length_app, ?length_alter, IH; simpl; lia.
Qed.

(** A stream that has begun and has neither ended nor failed is pending. *)
Lemma pending_unsettled tr k :
  k < length (declared_files tr) -> existsb (settles k) tr = false ->
  exists s, promises (run on_file tr) !! k = Some s /\ fs_promise s = Pending.
Proof.
  induction tr as [|ev tr IH] using rev_ind; intros Hk Hs; [simpl in Hk; lia|].
  rewrite declared_files_app, length_app in Hk. rewrite existsb_app in Hs.
  apply orb_false_iff in Hs as [Hs Hev]. rewrite run_snoc.
  destruct ev as [p| |j c|j|j e| |e]; simpl in Hk, Hev |- *.
  - destruct (decide (k < length (declared_files tr))) as [Hlt|Hge].
    + destruct (IH Hlt Hs) as [s [H1 H2]]. exists s. split; [|exact H2].
      apply lookup_app_l_Some. exact H1.
    + exists (on_file p). split; [|apply on_file_fresh].
      apply lookup_snoc_Some. right. split; [|reflexivity].
      rewrite promises_length. lia.
  - assert (Hk' : k < length (declared_files tr)) by lia. exact (IH Hk' Hs).
  - assert (Hk' : k < length (declared_files tr)) by lia. destruct (IH Hk' Hs) as [s [H1 H2]].
    rewrite list_lookup_alter. case_decide; [subst; rewrite H1; simpl|].
    + exists (stream_data c s). split; [reflexivity|exact H2].
    + exists s. auto.
  - assert (Hk' : k < length (declared_files tr)) by lia. destruct (IH Hk' Hs) as [s [H1 H2]].
    rewrite orb_false_r in Hev. apply Nat.eqb_neq in Hev.
    rewrite list_lookup_alter_ne by exact Hev. eauto.
  - assert (Hk' : k < length (declared_files tr)) by lia. destruct (IH Hk' Hs) as [s [H1 H2]].
    rewrite orb_false_r in Hev. apply Nat.eqb_neq in Hev.
    rewrite list_lookup_alter_ne by exact Hev. eauto.
  - assert (Hk' : k < length (declared_files tr)) by lia. exact (IH Hk' Hs).
  - assert (Hk' : k < length (declared_files tr)) by lia. exact (IH Hk' Hs).
Qed.

(** A rejected stream stays rejected, whatever the decoder emits next. *)
Lemma step_keeps_rejected st ev k s e :
  promises st !! k = Some s -> fs_promise s = Rejected e ->
  exists s', promises (step on_file st ev) !! k = Some s' /\ fs_promise s' = Rejected e.
Proof.
  intros Hs He. destruct ev as [p| |j c|j|j e'| |e']; simpl; eauto.
  - exists s. split; [|exact He]. apply lookup_app_l_Some. exact Hs.
  - rewrite list_lookup_alter. case_decide; [subst; rewrite Hs; simpl|eauto].
    eexists. split; [reflexivity|exact He].
  - rewrite list_lookup_alter. case_decide; [subst; rewrite Hs; simpl|eauto].
    eexists. split; [reflexivity|]. unfold stream_end. simpl. rewrite He. reflexivity.
  - rewrite list_lookup_alter. case_decide; [subst; rewrite Hs; simpl|eauto].
    eexists. split; [reflexivity|]. unfold stream_error. simpl. rewrite He. reflexivity.
Qed.

Lemma fold_keeps_rejected tr st k s e :
  promises st !! k = Some s -> fs_promise s = Rejected e ->
  exists s', promises (fold_left (step on_file) tr st) !! k = Some s' /\
             fs_promise s' = Rejected e.
Proof.
  revert st s. induction tr as [|ev tr IH]; intros st s Hs He; simpl; [eauto|].
  destruct (step_keeps_rejected st ev k s e Hs He) as [s' [H1 H2]].
  exact (IH _ s' H1 H2).
Qed.

(** The decoder's ['error'] before its first ['finish'] rejects the call. *)
Lemma error_before_finish pre post e :
  ~ In EvFinish pre -> exists e', outer (run on_file (pre ++ EvError e :: post)) = Rejected e'.
Proof.
  intros Hn. destruct (no_finish_unresolved pre Hn) as [_ Ho].
  assert (H1 : exists e', outer (run on_file (pre ++ [EvError e])) = Rejected e').
  { rewrite run_snoc. simpl. destruct (outer (run on_file pre)) as [|v|e0] eqn:Eo;
      simpl; eauto. exfalso. exact (Ho v eq_refl). }
  destruct H1 as [e' He']. exists e'.
  replace (pre ++ EvError e :: post) with ((pre ++ [EvError e]) ++ post)
    by (rewrite <- app_assoc; reflexivity).
  rewrite run_keeps_settled; [exact He'|]. rewrite He'. discriminate.
Qed.

(** A pending file stream's ['error'], followed by the decoder's first
    ['finish'], rejects the call. *)
Lemma stream_error_before_finish pre mid post k e :
  ~ In EvFinish pre -> ~ In EvFinish mid -> k < length (declared_files pre) ->
  existsb (settles k) pre = false ->
  exists e', outer (run on_file (pre ++ EvStreamError k e :: mid ++ EvFinish :: post))
             = Rejected e'.
Proof.
  intros Hn1 Hn2 Hk Hs.
  set (tr1 := pre ++ EvStreamError k e :: mid).
  assert (Hn : ~ In EvFinish tr1).
  { unfold tr1. intros H. apply in_app_or in H as [H|[H|H]]; [tauto|discriminate|tauto]. }
  destruct (pending_unsettled pre k Hk Hs) as [s [H1 H2]].
  assert (Hr : exists s', promises (run on_file tr1) !! k = Some s' /\
                          fs_promise s' = Rejected e).
  { unfold tr1, run. replace (pre ++ EvStreamError k e :: mid)
      with ((pre ++ [EvStreamError k e]) ++ mid) by (rewrite <- app_assoc; reflexivity).
    rewrite fold_left_app. apply (fold_keeps_rejected _ _ _ (stream_error e s)).
    - change (fold_left (step on_file) (pre ++ [EvStreamError k e]) init_state)
        with (run on_file (pre ++ [EvStreamError k e])).
      rewrite run_snoc. simpl. rewrite list_lookup_alter. case_decide; [|congruence].
      rewrite H1. reflexivity.
    - unfold stream_error. simpl. rewrite H2. reflexivity. }
  destruct Hr as [s' [Hs1 Hs2]].
  destruct (no_finish_unresolved tr1 Hn) as [Hc Ho].
  destruct (all_status_rejected (promises (run on_file tr1)) s' e) as [e' He'];
    [apply list_elem_of_In; eapply list_elem_of_lookup_2; exact Hs1|exact Hs2|].
  assert (Hf : exists e0, outer (run on_file (tr1 ++ [EvFinish])) = Rejected e0).
  { rewrite run_snoc. simpl. rewrite Hc. simpl. unfold chain.
    rewrite take_ge by lia. rewrite He'. unfold settle_reject.
    destruct (outer (run on_file tr1)) as [|v|e0] eqn:Eo; eauto.
    exfalso. exact (Ho v eq_refl). }
  destruct Hf as [e0 He0]. exists e0.
  replace (pre ++ EvStreamError k e :: mid ++ EvFinish :: post)
    with ((tr1 ++ [EvFinish]) ++ post)
    by (unfold tr1; rewrite <- !app_assoc; reflexivity).
  rewrite run_keeps_settled; [exact He0|]. rewrite He0. discriminate.
Qed.

Lemma first_terminal tr :
  terminated tr = true ->
  exists mid t post, tr = mid ++ t :: post /\ is_terminal t = true /\
                     terminated mid = false.
Proof.
  unfold terminated. induction tr as [|ev tr IH]; simpl; [discriminate|].
  destruct (is_terminal ev) eqn:Et; simpl.
  - intros _. exists [], ev, tr. auto.
  - intros H. destruct (IH H) as [mid [t [post [-> [Ht Hm]]]]].
    exists (ev :: mid), t, post. simpl. rewrite Et. auto.
Qed.

Lemma not_terminated_no_finish tr : terminated tr = false -> ~ In EvFinish tr.
Proof.
  unfold terminated. intros H Hin.
  rewrite (existsb_in is_terminal EvFinish tr Hin eq_refl) in H. discriminate.
Qed.

(** A failure reported before the decoder's first ['finish'] rejects the
    call. *)
Lemma run_fails_rejected tr :
  fails_before_finish tr -> exists e, outer (run on_file tr) = Rejected e.
Proof.
  intros [[pre [post [e [-> Hn]]]]|[pre [post [k [e [-> [Hn [Hk [Hs Ht]]]]]]]]].
  - exact (error_before_finish pre post e Hn).
  - destruct (first_terminal post Ht) as [mid [t [post' [-> [Htt Hm]]]]].
    pose proof (not_terminated_no_finish mid Hm) as Hnm.
    destruct t; try discriminate.
    + exact (stream_error_before_finish pre mid post' k e Hn Hnm Hk Hs).
    + replace (pre ++ EvStreamError k e :: mid ++ EvError e0 :: post')
        with ((pre ++ EvStreamError k e :: mid) ++ EvError e0 :: post')
        by (rewrite <- app_assoc; reflexivity).
      apply error_before_finish. intros H.
      apply in_app_or in H as [H|[H|H]]; [tauto|discriminate|tauto].
Qed.

(** In a protocol run, a stream that ended has its promise fulfilled. *)
Lemma ended_fulfilled tr k s :
  decoder_protocol tr = true ->
  promises (run on_file tr) !! k = Some s -> In (EvEnd k) tr ->
  exists r, fs_promise s = Fulfilled r.
Proof.
  revert k s.
  induction tr as [|ev tr IH] using rev_ind; intros k s Hp Hs Hin; [destruct Hin|].
  pose proof Hp as Hp'. apply protocol_snoc_inv in Hp' as [Hp0 Hok].
  pose proof (engine_inv_run on_file on_file_fresh tr Hp0) as (Hlen & Hstr & _).
  rewrite run_snoc in Hs. destruct ev as [p| |j c|j|j e| |e].
  - simpl in Hs. apply in_snoc_other in Hin; [|discriminate].
    apply lookup_snoc_Some in Hs as [[_ Hs]|[Hk _]].
    + exact (IH k s Hp0 Hs Hin).
    + exfalso. pose proof (settles_target k (EvEnd k) tr Hp0 Hin) as Hlt.
      simpl in Hlt. rewrite Nat.eqb_refl in Hlt. specialize (Hlt eq_refl). lia.
  - apply in_snoc_other in Hin; [|discriminate]. exact (IH k s Hp0 Hs Hin).
  - apply in_snoc_other in Hin; [|discriminate]. simpl in Hs.
    apply lookup_alter_Some in Hs as [[<- [s0 [H0 ->]]]|[_ Hs]].
    + exact (IH j s0 Hp0 H0 Hin).
    + exact (IH k s Hp0 Hs Hin).
  - rewrite promises_step_end in Hs.
    apply lookup_alter_Some in Hs as [[<- [s0 [H0 ->]]]|[Hjk Hs]].
    + simpl in Hok. apply andb_prop in Hok as [_ Hns]. apply negb_true_iff in Hns.
      destruct (Hstr j s0 H0) as (_ & _ & Hpend & _).
      unfold stream_end. simpl. rewrite (Hpend Hns). simpl. eauto.
    + apply in_snoc_other in Hin; [|congruence]. exact (IH k s Hp0 Hs Hin).
  - apply in_snoc_other in Hin; [|discriminate].
    rewrite promises_step_stream_error in Hs.
    apply lookup_alter_Some in Hs as [[<- [s0 [H0 ->]]]|[_ Hs]].
    + exfalso. simpl in Hok. apply andb_prop in Hok as [_ Hns].
      apply negb_true_iff in Hns. rewrite (existsb_in (settles j) (EvEnd j)) in Hns;
        [discriminate|exact Hin|simpl; apply Nat.eqb_refl].
    + exact (IH k s Hp0 Hs Hin).
  - apply in_snoc_other in Hin; [|discriminate]. exact (IH k s Hp0 Hs Hin).
  - apply in_snoc_other in Hin; [|discriminate]. exact (IH k s Hp0 Hs Hin).
Qed.

(** Once the decoder has finished and every file stream has ended, the
    call has resolved, to the records of the file parts. *)
Lemma run_resolves tr :
  decoder_protocol tr = true -> In EvFinish tr ->
  (forall k, k < length (declared_files tr) -> In (EvEnd k) tr) ->
  outer (run on_file tr) = Fulfilled (Some (expected_files on_file tr)).
Proof.
  intros Hp Hfin Hend.
  pose proof (engine_inv_run on_file on_file_fresh tr Hp) as Hinv.
  pose proof Hinv as (Hlen & Hstr & Hcalls & _ & Hpen).
  assert (Hf : existsb is_finish tr = true) by (apply (existsb_in _ EvFinish); auto).
  destruct (outer (run on_file tr)) as [|v|e] eqn:Ho.
  - exfalso. destruct (Hpen eq_refl) as [_ Hall].
    assert (Hin : In (length (declared_files tr)) (all_calls (run on_file tr)))
      by (rewrite Hcalls, Hf; left; reflexivity).
    specialize (Hall _ Hin). rewrite (finish_calls on_file tr _ Hinv Hf _ Hin) in Hall.
    destruct (all_status_all_fulfilled (promises (run on_file tr))) as [files Hfl].
    + intros k s Hk. apply (ended_fulfilled tr k s Hp Hk). apply Hend.
      rewrite <- Hlen. eapply lookup_lt_Some. exact Hk.
    + congruence.
  - destruct (resolved_shape on_file on_file_fresh tr v Hp Ho) as (_ & _ & ->).
    reflexivity.
  - exfalso. destruct (outer_rejected_cause tr e Ho) as [He|[k [e0 [He _]]]].
    + exact (finish_error_exclusive tr e Hp Hfin He).
    + apply (end_error_exclusive tr k e0 Hp); [|exact He]. apply Hend.
      apply (settles_target k (EvStreamError k e0) tr Hp He). simpl.
      apply Nat.eqb_refl.
Qed.

End Settlement.

End MultipartMore.

Module MultipartFailures.
Import Multipart MultipartSamples MultipartProofs MultipartMore.

(** A body the decoder finds truncated, in the order @fastify/busboy
    reports it: the decoder's ['error'], then the open file stream's
    ['error'], ['end'] and ['finish']. *)
Definition body_truncated {F} (a : F) : list (event F) :=
  [EvFile a; EvData 0 [x00];
   EvError (JsError (lit "Unexpected end of multipart data"));
   EvStreamError 0 (JsError (lit "Unexpected end of multipart data"));
   EvEnd 0; EvFinish].

(** A header without a boundary, which the decoder's constructor refuses. *)
Definition req_noboundary_bb : Request BusboyFile :=
  mkRequest (Some (lit "multipart/form-data")) (Some (JsError (lit "Multipart: Boundary not found")))
            [].

(** C6: for an applicable request, if the decoder's constructor refuses
    the headers, or the decoder reports a malformed body or a started file
    stream reports an error before the decoder's first ['finish'] (see
    [fails_before_finish]; the rest of the run is arbitrary), then the
    call rejects, and at no point of the run has it resolved: no partial
    list, and not [null].  Both extractors. *)
Theorem C6_failure_rejects_without_records :
  (forall req : Request FastifyFile,
     getContentType req <> None ->
     decoder_init req <> None \/ fails_before_finish (body req) ->
     (exists e, snd (getMultipartFormData req) = Rejected e) /\
     forall n v,
       snd (getMultipartFormData
              (mkRequest (content_type req) (decoder_init req) (take n (body req))))
       <> Fulfilled v) /\
  (forall req : Request BusboyFile,
     getContentType req <> None ->
     decoder_init req <> None \/ fails_before_finish (body req) ->
     (exists e, snd (readMultipartFormData req) = Rejected e) /\
     forall n v,
       snd (readMultipartFormData
              (mkRequest (content_type req) (decoder_init req) (take n (body req))))
       <> Fulfilled v).
Proof.
  split; intros req Hct Hfail; destruct (decoder_init req) as [e|] eqn:Ei.
  - split; [|intros n v]; unfold getMultipartFormData; rewrite ?getContentType_same_header;
      destruct (getContentType req); try congruence; cbn [decoder_init];
      rewrite ?Ei; simpl; [eauto|discriminate].
  - destruct Hfail as [Hfail|Hfail]; [congruence|].
    destruct (run_fails_rejected fastify_on_file fastify_fresh _ Hfail) as [e He].
    split.
    + exists e. rewrite getMultipartFormData_applicable by assumption. exact He.
    + intros n v. rewrite getMultipartFormData_applicable
        by (rewrite ?getContentType_same_header; first [assumption|reflexivity]).
      exact (rejected_never_fulfilled fastify_on_file _ e n v He).
  - split; [|intros n v]; unfold readMultipartFormData; rewrite ?getContentType_same_header;
      destruct (getContentType req); try congruence; cbn [decoder_init];
      rewrite ?Ei; simpl; [eauto|discriminate].
  - destruct Hfail as [Hfail|Hfail]; [congruence|].
    destruct (run_fails_rejected busboy_on_file busboy_fresh _ Hfail) as [e He].
    split.
    + exists e. rewrite readMultipartFormData_applicable by assumption. exact He.
    + intros n v. rewrite readMultipartFormData_applicable
        by (rewrite ?getContentType_same_header; first [assumption|reflexivity]).
      exact (rejected_never_fulfilled busboy_on_file _ e n v He).
Qed.

Lemma C6_failure_rejects_without_records_witness :
  (exists e, snd (getMultipartFormData req_sfail_ff) = Rejected e) /\
  (exists e, snd (readMultipartFormData req_dfail_bb) = Rejected e) /\
  (exists e, snd (getMultipartFormData (mkRequest ct_multipart None (body_truncated ff_avatar)))
             = Rejected e) /\
  (exists e, snd (readMultipartFormData req_noboundary_bb) = Rejected e).
Proof.
  split; [|split; [|split]].
  - apply (proj1 C6_failure_rejects_without_records req_sfail_ff);
      [vm_compute; discriminate|].
    right. right. exists [EvFile ff_avatar; EvData 0 [x00]], [EvFinish], 0, (JsNonError 0).
    split; [reflexivity|]. split; [intros [H|[H|[]]]; discriminate|].
    split; [simpl; lia|]. split; reflexivity.
  - apply (proj2 C6_failure_rejects_without_records req_dfail_bb);
      [vm_compute; discriminate|].
    right. left. exists [EvFile bb_avatar; EvData 0 [x00]], [],
      (JsError (lit "Malformed part header")).
    split; [reflexivity|]. intros [H|[H|[]]]; discriminate.
  - apply (proj1 C6_failure_rejects_without_records
             (mkRequest ct_multipart None (body_truncated ff_avatar)));
      [vm_compute; discriminate|].
    right. left. exists [EvFile ff_avatar; EvData 0 [x00]],
      [EvStreamError 0 (JsError (lit "Unexpected end of multipart data")); EvEnd 0; EvFinish],
      (JsError (lit "Unexpected end of multipart data")).
    split; [reflexivity|]. intros [H|[H|[]]]; discriminate.
  - apply (proj2 C6_failure_rejects_without_records req_noboundary_bb);
      [vm_compute; discriminate|].
    left. discriminate.
Defined.

End MultipartFailures.

(* ------------------------------------------------------------------ *)
(** ** Multipart extractors: properties of the calls *)

Module MultipartExtra.
Import Multipart MultipartSamples MultipartProofs MultipartMore.

Lemma catch_error_is_error e : exists m, catch_error e = JsError m.
Proof. destruct e; simpl; eauto. Qed.

(** A call returns [null] exactly when the [content-type] header is absent
    or does not begin with [multipart/form-data]: a multipart request never
    yields [null], whatever its decoder does.  Both extractors. *)
Theorem X_null_iff_not_multipart :
  (forall req : Request FastifyFile,
     snd (getMultipartFormData req) = Fulfilled None <->
     applicable (content_type req) = false) /\
  (forall req : Request BusboyFile,
     snd (readMultipartFormData req) = Fulfilled None <->
     applicable (content_type req) = false).
Proof.
  split; intros req.
  - rewrite getMultipartFormData_null. apply getContentType_applicable.
  - rewrite readMultipartFormData_null. apply getContentType_applicable.
Qed.

(** A call rejects only for a reported failure: with the value the
    decoder's constructor threw, or with the decoder's own ['error'] value,
    passed on unchanged, or after a file stream's ['error'], with that
    stream's error if it is an [Error] and otherwise with [Error('An error
    occurred while parsing multipart form data')]; a stream failure always
    surfaces as an [Error].  Both extractors; no assumption on the
    decoder. *)
Theorem X_rejection_cause :
  (forall (req : Request FastifyFile) e,
     snd (getMultipartFormData req) = Rejected e ->
     decoder_init req = Some e \/
     In (EvError e) (body req) \/
     exists k e0, In (EvStreamError k e0) (body req) /\ e = catch_error e0 /\
                  exists m, e = JsError m) /\
  (forall (req : Request BusboyFile) e,
     snd (readMultipartFormData req) = Rejected e ->
     decoder_init req = Some e \/
     In (EvError e) (body req) \/
     exists k e0, In (EvStreamError k e0) (body req) /\ e = catch_error e0 /\
                  exists m, e = JsError m).
Proof.
  split; intros req e H;
    unfold getMultipartFormData, readMultipartFormData in H;
    destruct (getContentType req); simpl in H; try discriminate;
    destruct (decoder_init req) as [e'|]; simpl in H;
    try (injection H as ->; left; reflexivity); right.
  - destruct (outer_rejected_cause fastify_on_file fastify_fresh _ _ H)
      as [He|[k [e0 [He ->]]]]; [left; exact He|].
    right. exists k, e0. split; [exact He|split; [reflexivity|apply catch_error_is_error]].
  - destruct (outer_rejected_cause busboy_on_file busboy_fresh _ _ H)
      as [He|[k [e0 [He ->]]]]; [left; exact He|].
    right. exists k, e0. split; [exact He|split; [reflexivity|apply catch_error_is_error]].
Qed.

Lemma X_rejection_cause_witness :
  snd (getMultipartFormData req_sfail_ff)
  = Rejected (JsError (lit "An error occurred while parsing multipart form data")) /\
  (decoder_init req_sfail_ff
   = Some (JsError (lit "An error occurred while parsing multipart form data")) \/
   In (EvError (JsError (lit "An error occurred while parsing multipart form data")))
      (body req_sfail_ff) \/
   exists k e0, In (EvStreamError k e0) (body req_sfail_ff) /\
     JsError (lit "An error occurred while parsing multipart form data") = catch_error e0 /\
     exists m, JsError (lit "An error occurred while parsing multipart form data") = JsError m).
Proof.
  split; [vm_compute; reflexivity|].
  apply (proj1 X_rejection_cause req_sfail_ff). vm_compute. reflexivity.
Defined.

(** For a multipart request whose decoder is built (its constructor
    accepts the headers) and follows the protocol, once the decoder has
    reported ['finish'] and every file stream has ended, the call has
    resolved to the records of the file parts (the empty list when the
    body has no file part).  Both extractors. *)
Theorem X_resolves_once_all_ended :
  (forall req : Request FastifyFile,
     getContentType req <> None -> decoder_init req = None ->
     decoder_protocol (body req) = true ->
     In EvFinish (body req) ->
     (forall k, k < length (declared_files (body req)) -> In (EvEnd k) (body req)) ->
     getMultipartFormData req
     = (true, Fulfilled (Some (expected_files fastify_on_file (body req))))) /\
  (forall req : Request BusboyFile,
     getContentType req <> None -> decoder_init req = None ->
     decoder_protocol (body req) = true ->
     In EvFinish (body req) ->
     (forall k, k < length (declared_files (body req)) -> In (EvEnd k) (body req)) ->
     readMultipartFormData req
     = (true, Fulfilled (Some (expected_files busboy_on_file (body req))))).
Proof.
  split; intros req Hct Hi Hp Hfin Hend.
  - rewrite getMultipartFormData_applicable by assumption.
    rewrite (run_resolves fastify_on_file fastify_fresh _ Hp Hfin Hend). reflexivity.
  - rewrite readMultipartFormData_applicable by assumption.
    rewrite (run_resolves busboy_on_file busboy_fresh _ Hp Hfin Hend). reflexivity.
Qed.

Lemma X_resolves_once_all_ended_witness :
  getMultipartFormData req_fields_ff
  = (true, Fulfilled (Some (expected_files fastify_on_file (body req_fields_ff)))) /\
  expected_files fastify_on_file (body req_fields_ff) = [] /\
  readMultipartFormData req_ok_bb
  = (true, Fulfilled (Some (expected_files busboy_on_file (body req_ok_bb)))).
Proof.
  split; [|split; [reflexivity|]].
  - apply (proj1 X_resolves_once_all_ended req_fields_ff);
      [vm_compute; discriminate|reflexivity|vm_compute; reflexivity|simpl; tauto|].
    intros k Hk. simpl in Hk. lia.
  - apply (proj2 X_resolves_once_all_ended req_ok_bb);
      [vm_compute; discriminate|reflexivity|vm_compute; reflexivity|simpl; tauto|].
    intros k Hk. simpl in Hk. simpl.
    destruct k as [|[|k]]; [tauto|tauto|lia].
Defined.

End MultipartExtra.

(* ------------------------------------------------------------------ *)
(** ** Server-Sent Events: a whole session, and the comment lines *)

Module SSEExtra.
Import SSE SSEProofs.

(** The chunks a list of response operations writes, in order. *)
Definition written (ops : list Op) : list jsstr :=
  flat_map (fun op => match op with Write c _ => [c] | _ => [] end) ops.

(** The chunks the caller's actions ask for: a [push] chunk as it is, a
    [pushComment] text through the comment framing. *)
Definition sent (acts : list Action) : list jsstr :=
  flat_map (fun a => match a with
                     | APush c => [c]
                     | APushComment c => [comment_of c]
                     | _ => []
                     end) acts.

(** The operations a channel may perform once it is open. *)
Definition channel_op (op : Op) : Prop :=
  (exists c, op = Write c (lit "utf8")) \/ op = Flush \/ op = End.

Definition is_end (op : Op) : bool := match op with End => true | _ => false end.
Definition is_close (a : Action) : bool := match a with AClose => true | _ => false end.

Lemma channel_op_write c : channel_op (Write c (lit "utf8")).
Proof. left. eauto. Qed.

Lemma channel_op_flush : channel_op Flush.
Proof. right. left. reflexivity. Qed.

Lemma channel_op_end : channel_op End.
Proof. right. right. reflexivity. Qed.

Ltac channel_ops_done :=
  split; [cbn [res_log]; rewrite <- ?app_assoc; reflexivity|];
  split; [repeat (apply List.Forall_cons;
                  [auto using channel_op_write, channel_op_flush, channel_op_end|]);
          apply List.Forall_nil|];
  split; reflexivity.

Lemma act_ops (ch : Channel) (r : Response) (a : Action) :
  push ch = push_impl -> pushComment ch = pushComment_impl -> close ch = end_ ->
  exists ops, res_log (act ch r a) = res_log r ++ ops /\ Forall channel_op ops /\
    written ops = sent [a] /\ length (filter is_end ops) = length (filter is_close [a]).
Proof.
  intros Hp Hc He. destruct a as [c|c| |b]; cbn [act]; rewrite ?Hp, ?Hc, ?He.
  - exists ([Write c (lit "utf8")] ++ if res_has_flush r then [Flush] else []).
    unfold push_impl, flush_opt, write, perform.
    destruct (res_has_flush r); channel_ops_done.
  - exists ([Write (comment_of c) (lit "utf8")] ++ if res_has_flush r then [Flush] else []).
    unfold pushComment_impl, flush_opt, write, perform.
    destruct (res_has_flush r); channel_ops_done.
  - exists [End]. unfold end_, perform. channel_ops_done.
  - exists []. cbn [res_log]. rewrite app_nil_r.
    split; [reflexivity|]. split; [apply List.Forall_nil|]. split; reflexivity.
Qed.

Lemma run_actions_ops (ch : Channel) (r : Response) (acts : list Action) :
  push ch = push_impl -> pushComment ch = pushComment_impl -> close ch = end_ ->
  exists ops, res_log (run_actions ch r acts) = res_log r ++ ops /\
    Forall channel_op ops /\ written ops = sent acts /\
    length (filter is_end ops) = length (filter is_close acts).
Proof.
  intros Hp Hc He. unfold run_actions. revert r.
  induction acts as [|a acts IH]; intros r; simpl.
  - exists []. rewrite app_nil_r. repeat split; constructor.
  - destruct (act_ops ch r a Hp Hc He) as [o1 (H1 & H2 & H3 & H4)].
    destruct (IH (act ch r a)) as [o2 (G1 & G2 & G3 & G4)].
    exists (o1 ++ o2). rewrite G1, H1, <- app_assoc. split; [reflexivity|].
    split; [apply Forall_app; auto|]. split.
    + unfold written in *. rewrite flat_map_app, H3, G3. destruct a; reflexivity.
    + rewrite filter_app, length_app, H4, G4. destruct a; reflexivity.
Qed.

(** Over a whole session: after the four headers and the optional header
    flush, the channel only writes [utf8] chunks, flushes and ends the
    response, never touching a header again; the chunks it writes are, in
    order, exactly the [push] chunks, unchanged, and the framed
    [pushComment] texts, one write per call, even after [close()] or after
    the transport closed; and it ends the response once per [close()]. *)
Theorem X_session_log (res : Response) (acts : list Action) :
  let '(ch, res1) := createServerSentEvent res in
  exists ops,
    res_log (run_actions ch res1 acts)
    = res_log res ++ header_ops
      ++ (if res_has_flushHeaders res then [FlushHeaders] else []) ++ ops /\
    Forall channel_op ops /\ written ops = sent acts /\
    length (filter is_end ops) = length (filter is_close acts).
Proof.
  simpl.
  lazymatch goal with
  | |- exists ops, res_log (run_actions ?ch ?r _) = _ /\ _ =>
      destruct (run_actions_ops ch r acts eq_refl eq_refl eq_refl)
        as [ops (H1 & H2 & H3 & H4)]
  end.
  exists ops. split; [|auto]. rewrite H1.
  unfold flushHeaders_opt, setHeader, perform. simpl.
  destruct (res_has_flushHeaders res); simpl; rewrite <- !app_assoc; reflexivity.
Qed.

Lemma split_nl_app (a b : jsstr) :
  split_nl (a ++ NL :: b) = split_nl a ++ split_nl b.
Proof.
  induction a as [|c a IH]; [reflexivity|].
  cbn [app split_nl]. rewrite IH.
  destruct (split_nl_nonempty a) as [x [xs Hx]]. rewrite Hx.
  destruct (N.eqb c NL); reflexivity.
Qed.

Lemma split_nl_no_nl (x : jsstr) : ~ In NL x -> split_nl x = [x].
Proof.
  induction x as [|c x IH]; intros H; [reflexivity|].
  cbn [split_nl]. rewrite IH by (intros Hin; apply H; right; exact Hin).
  destruct (N.eqb c NL) eqn:Ec; [|reflexivity].
  apply N.eqb_eq in Ec. subst. exfalso. apply H. left. reflexivity.
Qed.

Lemma split_nl_lines (s : jsstr) : Forall (fun x => ~ In NL x) (split_nl s).
Proof.
  induction s as [|c s IH]; [repeat constructor; intros []|].
  cbn [split_nl]. destruct (N.eqb c NL) eqn:Ec.
  - constructor; [intros []|exact IH].
  - apply N.eqb_neq in Ec. destruct (split_nl s) as [|x xs].
    + constructor; [|constructor]. intros [H|[]]. congruence.
    + inversion IH as [|? ? Hx Hxs]; subst.
      constructor; [|exact Hxs]. intros [H|H]; [congruence|contradiction].
Qed.

Lemma split_join (ls : list jsstr) :
  ls <> [] -> Forall (fun x => ~ In NL x) ls -> split_nl (join [NL] ls) = ls.
Proof.
  induction ls as [|x [|y ls] IH]; intros Hne Hf; [contradiction| |].
  - inversion Hf; subst. apply split_nl_no_nl. assumption.
  - inversion Hf as [|? ? Hx Hys]; subst.
    change (join [NL] (x :: y :: ls)) with (x ++ NL :: join [NL] (y :: ls)).
    rewrite split_nl_app, split_nl_no_nl by exact Hx.
    rewrite IH by (discriminate || exact Hys). reflexivity.
Qed.

(** The chunk [pushComment] writes, split on newlines, is comment lines
    (each starting with [':']; one per line of the text, or a single bare
    [":"] for the empty text) followed by one blank line. *)
Lemma comment_lines_split (text : jsstr) :
  exists ls,
    split_nl (comment_of text) = ls ++ [[]; []] /\
    Forall (fun l => head l = Some 58%N) ls /\
    length ls = (if truthy_str text then length (split_nl text) else 1).
Proof.
  unfold comment_of.
  change [NL; NL] with (NL :: [NL]). rewrite split_nl_app.
  change (split_nl [NL]) with ([] :: split_nl ([] : jsstr)). cbn [split_nl].
  destruct (truthy_str text).
  - exists (map (fun line => lit ": " ++ line) (split_nl text)).
    split; [|split].
    + rewrite split_join; [reflexivity| |].
      * destruct (split_nl_nonempty text) as [x [xs ->]]. discriminate.
      * apply Forall_map. eapply Forall_impl; [apply split_nl_lines|].
        intros x Hx Hin. apply in_app_or in Hin as [Hin|Hin]; [|exact (Hx Hin)].
        vm_compute in Hin. destruct Hin as [H|[H|[]]]; discriminate.
    + apply Forall_map. apply Forall_forall. intros x _. reflexivity.
    + apply length_map.
  - exists [lit ":"]. split; [|split].
    + rewrite split_nl_no_nl; [reflexivity|].
      vm_compute. intros [H|[]]. discriminate.
    + repeat constructor.
    + reflexivity.
Qed.

Definition CR : N := 13%N.

Lemma in_split_nl_out (s l : jsstr) (c : N) :
  In l (split_nl s) -> In c l -> In c s.
Proof.
  revert l. induction s as [|c0 s IH]; intros l Hl Hc.
  - destruct Hl as [<-|[]]. destruct Hc.
  - cbn [split_nl] in Hl. destruct (N.eqb c0 NL).
    + destruct Hl as [<-|Hl]; [destruct Hc|right; exact (IH l Hl Hc)].
    + destruct (split_nl s) as [|x xs] eqn:Es.
      * destruct Hl as [<-|[]]. destruct Hc as [<-|[]]. left. reflexivity.
      * destruct Hl as [<-|Hl].
        -- destruct Hc as [<-|Hc]; [left; reflexivity|].
           right. apply (IH x); [left; reflexivity|exact Hc].
        -- right. apply (IH l); [right; exact Hl|exact Hc].
Qed.

Lemma in_split_nl_in (s : jsstr) (c : N) :
  In c s -> c <> NL -> exists l, In l (split_nl s) /\ In c l.
Proof.
  induction s as [|c0 s IH]; intros Hin Hne; [destruct Hin|].
  cbn [split_nl]. destruct (N.eqb c0 NL) eqn:E0.
  - apply N.eqb_eq in E0. destruct Hin as [<-|Hin]; [contradiction|].
    destruct (IH Hin Hne) as [l [Hl Hc]]. exists l. split; [right; exact Hl|exact Hc].
  - destruct (split_nl_nonempty s) as [x [xs Es]]. rewrite Es.
    destruct Hin as [<-|Hin].
    + exists (c0 :: x). split; [left; reflexivity|left; reflexivity].
    + destruct (IH Hin Hne) as [l [Hl Hc]]. rewrite Es in Hl.
      destruct Hl as [<-|Hl].
      * exists (c0 :: x). split; [left; reflexivity|right; exact Hc].
      * exists l. split; [right; exact Hl|exact Hc].
Qed.

Lemma in_join_out (sep : jsstr) (ls : list jsstr) (c : N) :
  In c (join sep ls) -> In c sep \/ exists l, In l ls /\ In c l.
Proof.
  induction ls as [|x [|y ls] IH]; intros Hin; [destruct Hin| |].
  - right. exists x. split; [left; reflexivity|exact Hin].
  - change (join sep (x :: y :: ls)) with (x ++ sep ++ join sep (y :: ls)) in Hin.
    apply in_app_or in Hin as [Hin|Hin]; [right; exists x; split; [left|]; auto|].
    apply in_app_or in Hin as [Hin|Hin]; [left; exact Hin|].
    destruct (IH Hin) as [H|[l [Hl Hc]]]; [left; exact H|].
    right. exists l. split; [right; exact Hl|exact Hc].
Qed.

Lemma in_join_in (sep : jsstr) (ls : list jsstr) (l : jsstr) (c : N) :
  In l ls -> In c l -> In c (join sep ls).
Proof.
  induction ls as [|x [|y ls] IH]; intros Hl Hc; [destruct Hl| |].
  - destruct Hl as [<-|[]]. exact Hc.
  - change (join sep (x :: y :: ls)) with (x ++ sep ++ join sep (y :: ls)).
    destruct Hl as [<-|Hl]; apply in_or_app; [left; exact Hc|].
    right. apply in_or_app. right. exact (IH Hl Hc).
Qed.

(** For a text without carriage returns, the chunk [pushComment] writes
    has none either, so its lines are exactly its newline-separated
    pieces: comment lines (each starting with [':']; one per line of the
    text, or a single bare [":"] for the empty text) followed by one blank
    line.  A carriage return in the text, on the other hand, reaches the
    chunk unchanged. *)
Theorem X_comment_lines (text : jsstr) :
  (~ In CR text ->
   ~ In CR (comment_of text) /\
   exists ls,
     split_nl (comment_of text) = ls ++ [[]; []] /\
     Forall (fun l => head l = Some 58%N) ls /\
     length ls = (if truthy_str text then length (split_nl text) else 1)) /\
  (In CR text -> In CR (comment_of text)).
Proof.
  split.
  - intros Hn. split; [|apply comment_lines_split]. intros Hin.
    unfold comment_of in Hin. apply in_app_or in Hin as [Hin|Hin];
      [|destruct Hin as [H|[H|[]]]; discriminate].
    destruct (truthy_str text).
    + apply in_join_out in Hin as [Hin|[l [Hl Hc]]];
        [destruct Hin as [H|[]]; discriminate|].
      apply in_map_iff in Hl as [l0 [<- Hl0]].
      apply in_app_or in Hc as [Hc|Hc];
        [vm_compute in Hc; destruct Hc as [H|[H|[]]]; discriminate|].
      exact (Hn (in_split_nl_out text l0 CR Hl0 Hc)).
    + vm_compute in Hin. destruct Hin as [H|[]]. discriminate.
  - intros Hin. destruct (in_split_nl_in text CR Hin ltac:(discriminate)) as [l [Hl Hc]].
    destruct text as [|c0 t]; [destruct Hin|].
    unfold comment_of. cbn [truthy_str]. apply in_or_app. left.
    apply (in_join_in _ _ (lit ": " ++ l)); [apply in_map; exact Hl|].
    apply in_or_app. right. exact Hc.
Qed.

Lemma X_comment_lines_witness :
  ~ In CR (comment_of (lit "a" ++ [NL] ++ lit "b")) /\
  In CR (comment_of (lit "a" ++ [CR] ++ lit "b")).
Proof.
  split.
  - apply (proj1 (proj1 (X_comment_lines (lit "a" ++ [NL] ++ lit "b")) ltac:(vm_compute; intuition discriminate))).
  - apply (proj2 (X_comment_lines (lit "a" ++ [CR] ++ lit "b"))). right. left. reflexivity.
Defined.

End SSEExtra.
